(** * Emirates ID extractor: the text-to-record pipeline

    A shallow embedding of [emirates_id_extractor.py]
    ([EmiratesIDExtractor.extract_using_regex], [process_and_query],
    [upload_to_s3], [extract_text_from_image]) together with the
    properties of the extraction pipeline.

    Python values are modelled as follows.
    - [str] is [string], a sequence of 8-bit characters; a dictionary is
      a [gmap] keyed by strings.
    - The value returned by [json.loads] is a [json] tree.
    - An exception is a value of [exn]; code that may raise returns
      [exn + A], and code that also touches the document store or calls
      the model runs in the monad [M], a state of the world threaded
      through, which is kept when an exception is raised.
    - The functions of the Python library that the code calls
      ([str.upper], [str.strip], [json.loads], the character classes of
      [re]) are the fields of the class [PyLib], so that what is proved
      for every [PyLib] holds whatever these functions do on the
      characters outside ASCII.  The instance [ascii_lib] implements
      them on ASCII text and is used to run the code on concrete inputs.
    - [re.search] and [re.findall] are a backtracking matcher [rx] over
      the syntax tree of the pattern, greedy as the one of [re]; the
      relation [matches] says what a pattern matches independently of
      the order in which the matcher tries, and [rx_sound] and
      [rx_complete] relate the two; which of the matches the greedy
      matcher takes is proved where a property needs it
      ([name_match_longest]).
    - The services outside the program (object store, OCR, retrieval
      and model) answer as a record [Services] says; each of their
      calls, the removal of the stored object included, may fail. *)

From Stdlib Require Import String Ascii List ZArith Bool Lia.
From stdpp Require Import gmap strings.

Open Scope string_scope.

(** Let [simpl] compute the concatenation of strings. *)
#[global] Arguments String.append !s1 s2 : simpl nomatch.

(** ** Strings *)

(** [needle in hay] on two Python strings. *)
Fixpoint str_contains (needle hay : string) : bool :=
  String.prefix needle hay
  || match hay with
     | EmptyString => false
     | String _ hay' => str_contains needle hay'
     end.

(** [s[:n]] *)
Fixpoint str_take (n : nat) (s : string) : string :=
  match n, s with
  | S n', String c s' => String c (str_take n' s')
  | _, _ => EmptyString
  end.

(** [s[n:]] *)
Fixpoint str_drop (n : nat) (s : string) : string :=
  match n, s with
  | S n', String _ s' => str_drop n' s'
  | _, _ => s
  end.

(** [sep.join(xs)] *)
Fixpoint str_join (sep : string) (xs : list string) : string :=
  match xs with
  | [] => EmptyString
  | [x] => x
  | x :: xs' => x ++ sep ++ str_join sep xs'
  end.

(** [os.path.basename]: what follows the last slash. *)
Fixpoint basename_aux (acc : string) (s : string) : string :=
  match s with
  | EmptyString => acc
  | String c s' => if Ascii.eqb c "/" then basename_aux s' s' else basename_aux acc s'
  end.

Definition basename (path : string) : string := basename_aux path path.

(** ** JSON values and exceptions *)

#[local] Unset Elimination Schemes.
Inductive json : Type :=
| JNull
| JBool (b : bool)
| JNumber (lit : string)
| JString (s : string)
| JArray (xs : list json)
| JObject (m : gmap string json).
#[local] Set Elimination Schemes.

(** The exceptions the code can meet.  [Exception_ ctx e] is
    [Exception(f"{ctx}{str(e)}")], the way the three [except] clauses
    re-raise. *)
Inductive exn : Type :=
| ServiceError (msg : string)
| TypeError
| AttributeError
| KeyError
| IndexError
| Exception_ (ctx : string) (cause : exn).

Definition result (A : Type) : Type := exn + A.

Definition ok {A} (a : A) : result A := inr a.
Definition raise {A} (e : exn) : result A := inl e.

Definition rbind {A B} (m : result A) (f : A -> result B) : result B :=
  match m with
  | inl e => inl e
  | inr a => f a
  end.

Declare Scope result_scope.
Delimit Scope result_scope with result.
Notation "'let!' x ':=' m 'in' k" := (rbind m (fun x => k))
  (at level 10, x name, m at level 100, k at level 200) : result_scope.

(** [xs[i]] on a list: [IndexError] out of range. *)
Definition list_index {A} (xs : list A) (i : nat) : result A :=
  match nth_error xs i with
  | Some x => ok x
  | None => raise IndexError
  end.

(** ** The Python library *)

Class PyLib : Type := {
  (** [\d], [\s] and [\w] of [re] *)
  isdigit : ascii -> bool;
  isspace : ascii -> bool;
  isword : ascii -> bool;
  (** equality of two characters under [re.IGNORECASE] *)
  ieq : ascii -> ascii -> bool;
  (** [str.upper], [str.strip] *)
  str_upper : string -> string;
  str_strip : string -> string;
  (** [json.loads]; [None] is [json.JSONDecodeError] *)
  json_loads : string -> option json
}.

(** ** Regular expressions *)

Inductive regex : Type :=
| Lit (c : ascii)                 (* a literal character *)
| Digit                           (* \d *)
| Space                           (* \s *)
| Range (lo hi : ascii)           (* [lo-hi] *)
| Dot                             (* . *)
| WordB                           (* \b *)
| Seq (a b : regex)
| Alt (a b : regex)
| Rep (a : regex) (lo : nat) (hi : option nat)   (* a{lo,hi}, greedy *)
| Grp (a : regex).                (* ( a ) *)

Definition Plus (a : regex) : regex := Rep a 1 None.
Definition Star (a : regex) : regex := Rep a 0 None.
Definition Times (n : nat) (a : regex) : regex := Rep a n (Some n).

(** The pattern that spells a literal string. *)
Fixpoint Str (s : string) : regex :=
  match s with
  | EmptyString => Rep Dot 0 (Some 0)
  | String c EmptyString => Lit c
  | String c s' => Seq (Lit c) (Str s')
  end.

Fixpoint Alts (d : regex) (rs : list regex) : regex :=
  match rs with
  | [] => d
  | r :: rs' => Alt d (Alts r rs')
  end.

(** A position of the matcher: the character before it, if any, and the
    text after it. *)
Definition cfg : Type := option ascii * string.

Definition ascii_le (a b : ascii) : bool := (nat_of_ascii a <=? nat_of_ascii b)%nat.

Definition opt_is (f : ascii -> bool) (o : option ascii) : bool :=
  match o with
  | Some c => f c
  | None => false
  end.

Definition str_head (s : string) : option ascii :=
  match s with
  | EmptyString => None
  | String c _ => Some c
  end.

Definition hi_pred (hi : option nat) : option nat := Nat.pred <$> hi.

Definition hi_open (hi : option nat) : bool :=
  match hi with
  | Some 0 => false
  | _ => true
  end.

Section Matcher.
Context `{PyLib}.
Context {R : Type}.

(** [icase] is the flag [re.IGNORECASE]. *)
Variable icase : bool.

(** The test of a one-character pattern. *)
Definition char_test (r : regex) (c : ascii) : bool :=
  match r with
  | Lit d => if icase then ieq d c else Ascii.eqb d c
  | Digit => isdigit c
  | Space => isspace c
  | Range lo hi => ascii_le lo c && ascii_le c hi
  | Dot => negb (Ascii.eqb c "010")
  | _ => false
  end.

Definition at_boundary (p : option ascii) (s : string) : bool :=
  xorb (opt_is isword p) (opt_is isword (str_head s)).

Definition step_char (f : ascii -> bool) (s : string)
    (k : option ascii -> string -> option R) : option R :=
  match s with
  | String c s' => if f c then k (Some c) s' else None
  | EmptyString => None
  end.

(** The greedy loop of [a{lo,hi}]: one more round of the body first,
    and only when that has no way to succeed, stop here if [lo] rounds
    are done.  A round has to consume text. *)
Fixpoint rep_loop
    (body : option ascii -> string -> (option ascii -> string -> option R) -> option R)
    (fuel lo : nat) (hi : option nat) (p : option ascii) (s : string)
    (k : option ascii -> string -> option R) : option R :=
  match fuel with
  | 0 => None
  | S fuel' =>
      let more :=
        if hi_open hi then
          body p s (fun p' s' =>
            if (String.length s' <? String.length s)%nat
            then rep_loop body fuel' (Nat.pred lo) (hi_pred hi) p' s' k
            else None)
        else None in
      match more with
      | Some x => Some x
      | None => if (lo =? 0)%nat then k p s else None
      end
  end.

(** Match [r] at position [(p, s)] and hand the position reached to
    [k]; a [None] from [k] makes the matcher backtrack. *)
Fixpoint rx (r : regex) (p : option ascii) (s : string)
    (k : option ascii -> string -> option R) : option R :=
  match r with
  | Lit _ | Digit | Space | Range _ _ | Dot => step_char (char_test r) s k
  | WordB => if at_boundary p s then k p s else None
  | Seq a b => rx a p s (fun p' s' => rx b p' s' k)
  | Alt a b =>
      match rx a p s k with
      | Some x => Some x
      | None => rx b p s k
      end
  | Rep a lo hi => rep_loop (rx a) (S (String.length s)) lo hi p s k
  | Grp a => rx a p s k
  end.
End Matcher.

Section Search.
Context `{PyLib}.
Variable icase : bool.

(** The match of [r] that starts at [(p, s)]: the position it ends at. *)
Definition match_here (r : regex) (p : option ascii) (s : string) : option cfg :=
  rx icase r p s (fun p' s' => Some (p', s')).

Definition matched (s : string) (c : cfg) : string :=
  str_take (String.length s - String.length (snd c)) s.

(** [re.search(r, text)]: the start and the text of the leftmost match. *)
Fixpoint search_from (r : regex) (pos : nat) (p : option ascii) (s : string)
    : option (nat * string) :=
  match match_here r p s with
  | Some c => Some (pos, matched s c)
  | None =>
      match s with
      | EmptyString => None
      | String c s' => search_from r (S pos) (Some c) s'
      end
  end.

Definition re_search (r : regex) (text : string) : option (nat * string) :=
  search_from r 0 None text.

(** [re.findall(r, text)] for a pattern without groups: the matches
    from left to right, each search starting where the last match
    ended (one character further after an empty match). *)
Fixpoint findall_from (r : regex) (fuel : nat) (p : option ascii) (s : string)
    : list string :=
  match fuel with
  | 0 => []
  | S fuel' =>
      match match_here r p s with
      | Some c =>
          if (String.length (snd c) <? String.length s)%nat
          then matched s c :: findall_from r fuel' (fst c) (snd c)
          else matched s c ::
               match s with
               | EmptyString => []
               | String a s' => findall_from r fuel' (Some a) s'
               end
      | None =>
          match s with
          | EmptyString => []
          | String a s' => findall_from r fuel' (Some a) s'
          end
      end
  end.

(** The scan from a position inside the text. *)
Definition findall (r : regex) (p : option ascii) (s : string) : list string :=
  findall_from r (S (String.length s)) p s.

Definition re_findall (r : regex) (text : string) : list string :=
  findall r None text.
End Search.

(** [m.group(0)] of a match object. *)
Definition group0 (m : nat * string) : string := snd m.

(** ** The patterns of [extract_using_regex] *)

(** [(Dubai|Abu Dhabi|Sharjah|Ajman|Umm Al Quwain|Ras Al Khaimah|Fujairah)];
    group 1 spans the whole pattern, so [group(1)] is the whole match. *)
Definition place_re : regex :=
  Grp (Alts (Str "Dubai")
         [Str "Abu Dhabi"; Str "Sharjah"; Str "Ajman"; Str "Umm Al Quwain";
          Str "Ras Al Khaimah"; Str "Fujairah"]).

(** [\b\d{8,9}\b] *)
Definition uid_re : regex := Seq WordB (Seq (Rep Digit 8 (Some 9)) WordB).

(** [Z\d{7}] *)
Definition passport_re : regex := Seq (Lit "Z") (Times 7 Digit).

(** [\d{4}/\d{2}/\d{2}] *)
Definition date_re : regex :=
  Seq (Times 4 Digit) (Seq (Lit "/") (Seq (Times 2 Digit) (Seq (Lit "/") (Times 2 Digit)))).

(** [([A-Z]+\s+){2,}[A-Z]+] *)
Definition name_re : regex :=
  Seq (Rep (Grp (Seq (Plus (Range "A" "Z")) (Plus Space))) 2 None)
      (Plus (Range "A" "Z")).

(** [MACKSOFY.*SERVICES CO\.] *)
Definition sponsor_re : regex :=
  Seq (Str "MACKSOFY") (Seq (Star Dot) (Str "SERVICES CO.")).

(** ** The field schema *)

Definition NOT_FOUND : string := "Not Found".

Definition schema_keys : list string :=
  ["name"; "uid_no"; "passport_no"; "profession"; "sponsor";
   "place_of_issue"; "issue_date"; "expiry_date"].

(** ** [extract_using_regex] *)

Section Fallback.
Context `{PyLib}.

Definition extract_using_regex (text : string) : result (gmap string string) :=
  let extracted_info : gmap string string :=
    <["name" := NOT_FOUND]> (<["uid_no" := NOT_FOUND]> (<["passport_no" := NOT_FOUND]>
    (<["profession" := NOT_FOUND]> (<["sponsor" := NOT_FOUND]>
    (<["place_of_issue" := NOT_FOUND]> (<["issue_date" := NOT_FOUND]>
    (<["expiry_date" := NOT_FOUND]> ∅))))))) in
  (* Place of Issue pattern *)
  let place_match := re_search true place_re text in
  let extracted_info :=
    match place_match with
    | Some m => <["place_of_issue" := group0 m]> extracted_info
    | None => extracted_info
    end in
  (* UID pattern (numbers only) *)
  let uid_match := re_search false uid_re text in
  let extracted_info :=
    match uid_match with
    | Some m => <["uid_no" := group0 m]> extracted_info
    | None => extracted_info
    end in
  (* Passport pattern (Z followed by numbers) *)
  let passport_match := re_search false passport_re text in
  let extracted_info :=
    match passport_match with
    | Some m => <["passport_no" := group0 m]> extracted_info
    | None => extracted_info
    end in
  (* Date pattern *)
  let date_matches := re_findall false date_re text in
  (let! extracted_info :=
     if (2 <=? length date_matches)%nat then
       let! d0 := list_index date_matches 0 in
       let! d1 := list_index date_matches 1 in
       ok (<["expiry_date" := d1]> (<["issue_date" := d0]> extracted_info))
     else ok extracted_info in
   (* Name pattern (all caps words) *)
   let name_match := re_search false name_re text in
   let extracted_info :=
     match name_match with
     | Some m => <["name" := group0 m]> extracted_info
     | None => extracted_info
     end in
   (* Professional pattern *)
   let extracted_info :=
     if str_contains "PARTNER" text || str_contains "Partner" text
     then <["profession" := "Partner"]> extracted_info
     else extracted_info in
   (* Sponsor pattern (company name) *)
   let sponsor_match := re_search false sponsor_re text in
   let extracted_info :=
     match sponsor_match with
     | Some m => <["sponsor" := group0 m]> extracted_info
     | None => extracted_info
     end in
   ok extracted_info)%result.
End Fallback.

(** ** The library on ASCII text *)

Module AsciiLib.

Definition code (c : ascii) : nat := nat_of_ascii c.

Definition between (lo hi : nat) (c : ascii) : bool :=
  ((lo <=? code c) && (code c <=? hi))%nat.

Definition is_digit (c : ascii) : bool := between 48 57 c.

(** The characters of [str.isspace] below 128: tab to carriage return,
    the four separators 28 to 31 and the blank. *)
Definition is_space (c : ascii) : bool :=
  between 9 13 c || between 28 32 c.

Definition is_word (c : ascii) : bool :=
  is_digit c || between 65 90 c || between 97 122 c || Ascii.eqb c "_".

Definition upper_char (c : ascii) : ascii :=
  if between 97 122 c then ascii_of_nat (code c - 32) else c.

Definition lower_char (c : ascii) : ascii :=
  if between 65 90 c then ascii_of_nat (code c + 32) else c.

Definition ieq_char (a b : ascii) : bool := Ascii.eqb (lower_char a) (lower_char b).

Fixpoint upper (s : string) : string :=
  match s with
  | EmptyString => EmptyString
  | String c s' => String (upper_char c) (upper s')
  end.

Fixpoint lstrip (s : string) : string :=
  match s with
  | String c s' => if is_space c then lstrip s' else s
  | EmptyString => EmptyString
  end.

Fixpoint rstrip (s : string) : string :=
  match s with
  | EmptyString => EmptyString
  | String c s' =>
      match rstrip s' with
      | EmptyString => if is_space c then EmptyString else String c EmptyString
      | r => String c r
      end
  end.

Definition strip (s : string) : string := lstrip (rstrip s).

(** *** A JSON decoder

    The decoder reads the JSON grammar on ASCII text: objects, arrays,
    strings with the one-letter escapes, numbers, [true], [false] and
    [null].  Text outside of it ([\u] escapes, [NaN], [Infinity]) is
    reported as undecodable, so the decoder stands for [json.loads]
    only on documents that do not use these. *)

Definition quote : ascii := "034".
Definition backslash : ascii := "092".

Definition is_json_ws (c : ascii) : bool :=
  Ascii.eqb c " " || Ascii.eqb c "009" || Ascii.eqb c "010" || Ascii.eqb c "013".

Fixpoint skip_ws (s : string) : string :=
  match s with
  | String c s' => if is_json_ws c then skip_ws s' else s
  | EmptyString => EmptyString
  end.

Definition unescape (c : ascii) : option ascii :=
  if Ascii.eqb c quote then Some quote
  else if Ascii.eqb c backslash then Some backslash
  else if Ascii.eqb c "/" then Some "/"%char
  else if Ascii.eqb c "b" then Some "008"%char
  else if Ascii.eqb c "f" then Some "012"%char
  else if Ascii.eqb c "n" then Some "010"%char
  else if Ascii.eqb c "r" then Some "013"%char
  else if Ascii.eqb c "t" then Some "009"%char
  else None.

Definition push (c : ascii) (r : string * string) : string * string :=
  (String c (fst r), snd r).

(** The rest of a string literal, after its opening quote. *)
Fixpoint scan_string (s : string) : option (string * string) :=
  match s with
  | EmptyString => None
  | String c r =>
      if Ascii.eqb c quote then Some (EmptyString, r)
      else if Ascii.eqb c backslash then
        match r with
        | String e r' =>
            match unescape e with
            | Some d => push d <$> scan_string r'
            | None => None
            end
        | EmptyString => None
        end
      else if (code c <? 32)%nat then None
      else push c <$> scan_string r
  end.

Fixpoint take_digits (s : string) : string * string :=
  match s with
  | String c s' => if is_digit c then push c (take_digits s') else (EmptyString, s)
  | EmptyString => (EmptyString, EmptyString)
  end.

(** A number: an optional minus, an integer part without leading
    zero, an optional fraction, an optional exponent.  The literal and
    the rest. *)
Definition scan_number (s : string) : option (string * string) :=
  let '(sign, s1) :=
    match s with
    | String "-" r => ("-", r)
    | _ => (EmptyString, s)
    end in
  let int_part :=
    match s1 with
    | String "0" r => Some ("0", r)
    | _ => match take_digits s1 with
           | (EmptyString, _) => None
           | ds => Some ds
           end
    end in
  match int_part with
  | None => None
  | Some (ip, s2) =>
      let '(frac, s3) :=
        match s2 with
        | String "." r =>
            match take_digits r with
            | (EmptyString, _) => (EmptyString, s2)
            | (ds, r') => (String "." ds, r')
            end
        | _ => (EmptyString, s2)
        end in
      let '(ex, s4) :=
        match s3 with
        | String e r =>
            if Ascii.eqb e "e" || Ascii.eqb e "E" then
              let '(sg, r1) :=
                match r with
                | String g r0 =>
                    if Ascii.eqb g "+" || Ascii.eqb g "-"
                    then (String g EmptyString, r0) else (EmptyString, r)
                | EmptyString => (EmptyString, r)
                end in
              match take_digits r1 with
              | (EmptyString, _) => (EmptyString, s3)
              | (ds, r') => (String e (sg ++ ds), r')
              end
            else (EmptyString, s3)
        | EmptyString => (EmptyString, s3)
        end in
      Some (sign ++ ip ++ frac ++ ex, s4)
  end.

Definition scan_word (w : string) (v : json) (s : string) : option (json * string) :=
  if String.prefix w s then Some (v, str_drop (String.length w) s) else None.

Fixpoint parse_value (fuel : nat) (s : string) : option (json * string) :=
  match fuel with
  | 0 => None
  | S f =>
      match s with
      | String c r =>
          if Ascii.eqb c "{" then
            match skip_ws r with
            | String "}" r' => Some (JObject ∅, r')
            | r' => parse_members f r' ∅
            end
          else if Ascii.eqb c "[" then
            match skip_ws r with
            | String "]" r' => Some (JArray [], r')
            | r' => parse_elems f r' []
            end
          else if Ascii.eqb c quote then
            match scan_string r with
            | Some (str, r') => Some (JString str, r')
            | None => None
            end
          else if Ascii.eqb c "n" then scan_word "null" JNull s
          else if Ascii.eqb c "t" then scan_word "true" (JBool true) s
          else if Ascii.eqb c "f" then scan_word "false" (JBool false) s
          else
            match scan_number s with
            | Some (lit, r') => Some (JNumber lit, r')
            | None => None
            end
      | EmptyString => None
      end
  end
with parse_elems (fuel : nat) (s : string) (acc : list json) : option (json * string) :=
  match fuel with
  | 0 => None
  | S f =>
      match parse_value f s with
      | Some (v, r) =>
          match skip_ws r with
          | String c r' =>
              if Ascii.eqb c "," then parse_elems f (skip_ws r') (acc ++ [v])
              else if Ascii.eqb c "]" then Some (JArray (acc ++ [v]), r')
              else None
          | EmptyString => None
          end
      | None => None
      end
  end
with parse_members (fuel : nat) (s : string) (acc : gmap string json)
    : option (json * string) :=
  match fuel with
  | 0 => None
  | S f =>
      match s with
      | String c r =>
          if Ascii.eqb c quote then
            match scan_string r with
            | Some (key, r1) =>
                match skip_ws r1 with
                | String ":" r2 =>
                    match parse_value f (skip_ws r2) with
                    | Some (v, r3) =>
                        match skip_ws r3 with
                        | String d r4 =>
                            if Ascii.eqb d "," then
                              parse_members f (skip_ws r4) (<[key := v]> acc)
                            else if Ascii.eqb d "}" then
                              Some (JObject (<[key := v]> acc), r4)
                            else None
                        | EmptyString => None
                        end
                    | None => None
                    end
                | _ => None
                end
            | None => None
            end
          else None
      | EmptyString => None
      end
  end.

(** The whole text has to be one value, blanks around it allowed. *)
Definition loads (s : string) : option json :=
  match parse_value (S (2 * String.length s)) (skip_ws s) with
  | Some (v, r) =>
      match skip_ws r with
      | EmptyString => Some v
      | _ => None
      end
  | None => None
  end.

End AsciiLib.

#[export] Instance ascii_lib : PyLib := {
  isdigit := AsciiLib.is_digit;
  isspace := AsciiLib.is_space;
  isword := AsciiLib.is_word;
  ieq := AsciiLib.ieq_char;
  str_upper := AsciiLib.upper;
  str_strip := AsciiLib.strip;
  json_loads := AsciiLib.loads
}.

(** A string between double quotes, to write JSON text. *)
Definition q (s : string) : string :=
  String AsciiLib.quote (s ++ String AsciiLib.quote EmptyString).

(** ** Operations on Python values *)

(** [key in v] for a string [key]: a key of a dictionary, an element of
    a list, a substring of a string, a [TypeError] on anything else. *)
Definition py_in (key : string) (v : json) : result bool :=
  match v with
  | JObject m => ok (bool_decide (is_Some (m !! key)))
  | JArray xs =>
      ok (existsb (fun x => match x with
                            | JString s => String.eqb s key
                            | _ => false
                            end) xs)
  | JString s => ok (str_contains key s)
  | _ => raise TypeError
  end.

(** [v[key]] for a string [key]. *)
Definition py_getitem (v : json) (key : string) : result json :=
  match v with
  | JObject m =>
      match m !! key with
      | Some x => ok x
      | None => raise KeyError
      end
  | _ => raise TypeError
  end.

(** [v[key] = x] for a string [key]. *)
Definition py_setitem (v : json) (key : string) (x : json) : result json :=
  match v with
  | JObject m => ok (JObject (<[key := x]> m))
  | _ => raise TypeError
  end.

(** [v.upper()] *)
Definition py_upper `{PyLib} (v : json) : result string :=
  match v with
  | JString s => ok (str_upper s)
  | _ => raise AttributeError
  end.

(** [info.get(key, "Not Found")], the way [app.py] and [display_results]
    read every field of a record. *)
Definition py_get_default (info : json) (key : string) : result json :=
  match info with
  | JObject m => ok (default (JString NOT_FOUND) (m !! key))
  | _ => raise AttributeError
  end.

(** The dictionary of strings that [extract_using_regex] builds, as a
    Python value. *)
Definition of_record (d : gmap string string) : json := JObject (JString <$> d).

(** ** The post-processing of a parsed answer *)

Section PostProcess.
Context `{PyLib}.

Definition is_partner (s : string) : bool :=
  String.eqb s "PARTNER" || String.eqb s "PARTNER (FEMALE)".

Definition is_company (s : string) : bool :=
  str_contains "SERVICES CO" s || str_contains "DATA MANAGEMENT" s.

(** [info['profession'], info['sponsor'] = a, b] *)
Definition assign_pair (info : json) (a b : string) : result json :=
  (let! info := py_setitem info "profession" (JString a) in
   py_setitem info "sponsor" (JString b))%result.

(** Lines 108 to 119 of [process_and_query]: two [if] statements, one
    after the other, on the upper-cased values read before them. *)
Definition post_process (extracted_info : json) : result json :=
  (let! has_profession := py_in "profession" extracted_info in
   let! has_both :=
     if has_profession then py_in "sponsor" extracted_info else ok false in
   if has_both then
     let! profession := py_getitem extracted_info "profession" in
     let! prof_value := py_upper profession in
     let! sponsor := py_getitem extracted_info "sponsor" in
     let! sponsor_value := py_upper sponsor in
     let! extracted_info :=
       if is_company prof_value
       then assign_pair extracted_info sponsor_value prof_value
       else ok extracted_info in
     let! extracted_info :=
       if is_partner (str_strip sponsor_value)
       then assign_pair extracted_info sponsor_value prof_value
       else ok extracted_info in
     ok extracted_info
   else ok extracted_info)%result.

(** The pass as the specification words it: the second rule is tried
    only when the first one did not fire. *)
Definition post_process_first_match (extracted_info : json) : result json :=
  (let! has_profession := py_in "profession" extracted_info in
   let! has_both :=
     if has_profession then py_in "sponsor" extracted_info else ok false in
   if has_both then
     let! profession := py_getitem extracted_info "profession" in
     let! prof_value := py_upper profession in
     let! sponsor := py_getitem extracted_info "sponsor" in
     let! sponsor_value := py_upper sponsor in
     if is_company prof_value
     then assign_pair extracted_info sponsor_value prof_value
     else if is_partner (str_strip sponsor_value)
     then assign_pair extracted_info sponsor_value prof_value
     else ok extracted_info
   else ok extracted_info)%result.
End PostProcess.

(** ** The collaborators and the state of the world *)

(** A block of the OCR answer. *)
Record Block : Type := { BlockType : string; Text : string }.

(** What the services outside the program answer during one run. *)
Record Services : Type := {
  (** the bytes of a local file, if it can be read *)
  local_file : string -> option string;
  (** the OCR service on the bytes of a stored object *)
  ocr : string -> result (list Block);
  (** lines 55 to 101: splitting, indexing, retrieval and the call of
      the model, from the OCR text to the raw answer *)
  chain_run : string -> result string;
  (** what the document store answers to the removal of an object,
      given the bucket and the key *)
  delete_outcome : string -> string -> result unit
}.

Inductive event : Type :=
| EvUpload (bucket key : string)
| EvDetect (bucket key : string)
| EvModel (text : string)
| EvDelete (bucket key : string).

(** The document store, a map from bucket and key to bytes, and the
    calls made so far, the latest last. *)
Record World : Type := {
  s3 : gmap (string * string) string;
  trace : list event
}.

Definition M (A : Type) : Type := World -> World * result A.

Definition mret {A} (a : A) : M A := fun w => (w, ok a).

Definition mraise {A} (e : exn) : M A := fun w => (w, raise e).

Definition mbind {A B} (m : M A) (f : A -> M B) : M B :=
  fun w =>
    match m w with
    | (w', inr a) => f a w'
    | (w', inl e) => (w', inl e)
    end.

(** [try: m  except Exception as e: handler e] *)
Definition try_except {A} (m : M A) (handler : exn -> M A) : M A :=
  fun w =>
    match m w with
    | (w', inr a) => (w', inr a)
    | (w', inl e) => handler e w'
    end.

Definition lift {A} (r : result A) : M A := fun w => (w, r).

Declare Scope M_scope.
Delimit Scope M_scope with M.
Notation "'let!' x ':=' m 'in' k" := (mbind m (fun x => k))
  (at level 10, x name, m at level 100, k at level 200) : M_scope.

Definition log (e : event) (w : World) : World :=
  {| s3 := s3 w; trace := trace w ++ [e] |}.

Section Pipeline.
Context `{PyLib}.
Variable svc : Services.

(** [s3_client.upload_file] *)
Definition s3_upload_file (local_file_path bucket_name s3_file_path : string) : M unit :=
  fun w =>
    match local_file svc local_file_path with
    | Some bytes =>
        ({| s3 := <[(bucket_name, s3_file_path) := bytes]> (s3 w);
            trace := trace w ++ [EvUpload bucket_name s3_file_path] |}, ok tt)
    | None => (w, raise (ServiceError "No such file"))
    end.

(** [s3_client.delete_object]: the call is made, and the object is
    removed unless the store answers with an error, which is raised. *)
Definition s3_delete_object (bucket_name key : string) : M unit :=
  fun w =>
    match delete_outcome svc bucket_name key with
    | inr _ =>
        ({| s3 := delete (bucket_name, key) (s3 w);
            trace := trace w ++ [EvDelete bucket_name key] |}, ok tt)
    | inl e => (log (EvDelete bucket_name key) w, raise e)
    end.

(** [textract_client.detect_document_text] on a stored object *)
Definition detect_document_text (bucket_name name : string) : M (list Block) :=
  fun w =>
    match s3 w !! (bucket_name, name) with
    | Some bytes => (log (EvDetect bucket_name name) w, ocr svc bytes)
    | None => (log (EvDetect bucket_name name) w, raise (ServiceError "No such object"))
    end.

(** The call of the model at line 101, with what leads to it. *)
Definition run_chain (text : string) : M string :=
  fun w => (log (EvModel text) w, chain_run svc text).

Definition upload_to_s3 (local_file_path bucket_name s3_file_path : string) : M string :=
  try_except
    (let! _ := s3_upload_file local_file_path bucket_name s3_file_path in
     mret ("s3://" ++ bucket_name ++ "/" ++ s3_file_path))%M
    (fun e => mraise (Exception_ "Error uploading to S3: " e)).

Definition process_and_query (text : string) : M json :=
  try_except
    (let! result := run_chain text in
     let! extracted_info :=
       match json_loads result with
       | Some extracted_info => lift (post_process extracted_info)
       | None =>
           lift (let! r := extract_using_regex result in ok (of_record r))%result
       end in
     mret extracted_info)%M
    (fun e => mraise (Exception_ "Error in LLM processing: " e)).

Definition is_line (b : Block) : bool := String.eqb (BlockType b) "LINE".

(** The bucket and the key under which an image is stored. *)
Definition s3_key (image_path bucket_name : string) : string * string :=
  (bucket_name, "emirates_ids/" ++ basename image_path).

Definition extract_text_from_image (image_path bucket_name : string) : M json :=
  try_except
    (let s3_file_path := "emirates_ids/" ++ basename image_path in
     let! s3_uri := upload_to_s3 image_path bucket_name s3_file_path in
     let! response := detect_document_text bucket_name s3_file_path in
     let extracted_text := str_join " " (Text <$> List.filter is_line response) in
     let! extracted_info := process_and_query extracted_text in
     let! _ := s3_delete_object bucket_name s3_file_path in
     mret extracted_info)%M
    (fun e => mraise (Exception_ "Error processing Emirates ID: " e)).
End Pipeline.

(** ** What a pattern matches *)

(** The last character of [w], or [p] when [w] is empty: the character
    before the position reached after reading [w]. *)
Fixpoint str_last (p : option ascii) (w : string) : option ascii :=
  match w with
  | EmptyString => p
  | String c w' => str_last (Some c) w'
  end.

(** Every character of [s] passes [f]. *)
Fixpoint str_all (f : ascii -> bool) (s : string) : bool :=
  match s with
  | EmptyString => true
  | String c s' => f c && str_all f s'
  end.

(** The patterns that read one character. *)
Definition is_atom (r : regex) : bool :=
  match r with
  | Lit _ | Digit | Space | Range _ _ | Dot => true
  | _ => false
  end.

(** A lower bound on the length of a match. *)
Fixpoint min_len (r : regex) : nat :=
  match r with
  | Lit _ | Digit | Space | Range _ _ | Dot => 1
  | WordB => 0
  | Seq a b => min_len a + min_len b
  | Alt a b => Nat.min (min_len a) (min_len b)
  | Rep a lo _ => lo * min_len a
  | Grp a => min_len a
  end.

Section Semantics.
Context `{PyLib}.
Variable icase : bool.

(** [matches r c c']: the pattern [r] can take the matcher from the
    position [c] to the position [c'], whatever the order in which
    the matcher tries the alternatives. *)
Inductive matches : regex -> cfg -> cfg -> Prop :=
| m_char r c p s :
    char_test icase r c = true ->
    matches r (p, String c s) (Some c, s)
| m_wordb p s :
    at_boundary p s = true ->
    matches WordB (p, s) (p, s)
| m_seq a b c1 c2 c3 :
    matches a c1 c2 -> matches b c2 c3 ->
    matches (Seq a b) c1 c3
| m_alt_l a b c1 c2 :
    matches a c1 c2 -> matches (Alt a b) c1 c2
| m_alt_r a b c1 c2 :
    matches b c1 c2 -> matches (Alt a b) c1 c2
| m_rep_stop a hi c :
    matches (Rep a 0 hi) c c
| m_rep_more a lo hi c1 c2 c3 :
    hi_open hi = true ->
    matches a c1 c2 ->
    (String.length (snd c2) < String.length (snd c1))%nat ->
    matches (Rep a (Nat.pred lo) (hi_pred hi)) c2 c3 ->
    matches (Rep a lo hi) c1 c3
| m_grp a c1 c2 :
    matches a c1 c2 -> matches (Grp a) c1 c2.

(** The text has a match of [r] that starts after [pre]. *)
Definition match_at (r : regex) (text pre : string) : Prop :=
  exists s c', text = pre ++ s /\ matches r (str_last None pre, s) c'.

(** [w] is the text of a match of [r] in [text] that starts after
    [pre], and no match of [r] starts before it. *)
Definition leftmost_match (r : regex) (text pre w : string) : Prop :=
  (exists post p',
      text = pre ++ w ++ post
      /\ matches r (str_last None pre, w ++ post) (p', post))
  /\ forall pre', (String.length pre' < String.length pre)%nat ->
                  ~ match_at r text pre'.

Definition no_match (r : regex) (text : string) : Prop :=
  forall pre, ~ match_at r text pre.

(** No match of [r] in [text] that starts after [pre] is longer than
    [w]. *)
Definition longest_at (r : regex) (text pre w : string) : Prop :=
  forall w' post p',
    text = pre ++ w' ++ post ->
    matches r (str_last None pre, w' ++ post) (p', post) ->
    (String.length w' <= String.length w)%nat.
End Semantics.

(** ** The shapes the fallback looks for *)

Section Shapes.
Context `{PyLib}.

(** [s] begins with four digits, a slash, two digits, a slash and two
    digits. *)
Definition is_date (s : string) : bool :=
  match s with
  | String d0 (String d1 (String d2 (String d3 (String s1
      (String d4 (String d5 (String s2 (String d6 (String d7 _))))))))) =>
      isdigit d0 && isdigit d1 && isdigit d2 && isdigit d3
      && Ascii.eqb s1 "/" && isdigit d4 && isdigit d5
      && Ascii.eqb s2 "/" && isdigit d6 && isdigit d7
  | _ => false
  end.

(** [s] begins with the letter Z and seven digits. *)
Definition is_passport (s : string) : bool :=
  match s with
  | String z (String d1 (String d2 (String d3 (String d4
      (String d5 (String d6 (String d7 _))))))) =>
      Ascii.eqb z "Z" && isdigit d1 && isdigit d2 && isdigit d3
      && isdigit d4 && isdigit d5 && isdigit d6 && isdigit d7
  | _ => false
  end.

(** The shape starts at index [i] of [text]. *)
Definition date_at (text : string) (i : nat) : bool := is_date (str_drop i text).
Definition passport_at (text : string) (i : nat) : bool := is_passport (str_drop i text).

(** [text[i:i+n]] *)
Definition substr (text : string) (i n : nat) : string := str_take n (str_drop i text).

Definition is_upper (c : ascii) : bool := ascii_le "A" c && ascii_le c "Z".

(** A word in capitals, and a stretch of blanks: both not empty. *)
Definition caps_word (w : string) : Prop := w <> EmptyString /\ str_all is_upper w = true.
Definition blanks (w : string) : Prop := w <> EmptyString /\ str_all isspace w = true.

(** [w] begins with two words in capitals, each followed by blanks,
    and a capital letter after them: three words at least. *)
Definition three_words (w : string) : Prop :=
  exists u1 b1 u2 b2 c rest,
    w = u1 ++ b1 ++ u2 ++ b2 ++ String c rest
    /\ caps_word u1 /\ blanks b1 /\ caps_word u2 /\ blanks b2
    /\ is_upper c = true.

(** [w] is two words in capitals with blanks between them. *)
Definition two_words (w : string) : Prop :=
  exists u1 b u2, w = u1 ++ b ++ u2 /\ caps_word u1 /\ blanks b /\ caps_word u2.
End Shapes.

(** ** The record of the fallback, field by field *)

Section Fields.
Context `{PyLib}.

Definition found (m : option (nat * string)) : string :=
  match m with
  | Some m => group0 m
  | None => NOT_FOUND
  end.

Definition dates_found (date_matches : list string) : string * string :=
  match date_matches with
  | d0 :: d1 :: _ => (d0, d1)
  | _ => (NOT_FOUND, NOT_FOUND)
  end.

Definition profession_found (text : string) : string :=
  if str_contains "PARTNER" text || str_contains "Partner" text
  then "Partner" else NOT_FOUND.

(** The dictionary [extract_using_regex] returns on [text]. *)
Definition fallback_record (text : string) : gmap string string :=
  <["name" := found (re_search false name_re text)]>
  (<["uid_no" := found (re_search false uid_re text)]>
  (<["passport_no" := found (re_search false passport_re text)]>
  (<["profession" := profession_found text]>
  (<["sponsor" := found (re_search false sponsor_re text)]>
  (<["place_of_issue" := found (re_search true place_re text)]>
  (<["issue_date" := fst (dates_found (re_findall false date_re text))]>
  (<["expiry_date" := snd (dates_found (re_findall false date_re text))]> ∅))))))).
End Fields.

(** ** Complete records *)

(** All eight keys of the schema are bound, each to a string that is
    not empty. *)
Definition complete_record (v : json) : Prop :=
  exists m, v = JObject m
            /\ forall k, In k schema_keys ->
                         exists s, m !! k = Some (JString s) /\ s <> EmptyString.

(** ** Inputs of the examples *)

Definition w0 : World := {| s3 := ∅; trace := [] |}.

(** A text with two dates that share two characters. *)
Definition overlapping_dates : string := "2020/01/1520/03/04".

(** The two dates of the specification, the issue date first. *)
Definition two_dates : string := "Issue 2020/01/15 Expiry 2030/01/14".

(** The letter Z with a run of eight digits after it. *)
Definition long_passport : string := "Passport Z12345678".

Definition three_caps : string := "Name: JOHN ADAM SMITH".

(** The lines the OCR service reads on a card. *)
Definition card_blocks : list Block :=
  [ {| BlockType := "PAGE"; Text := EmptyString |};
    {| BlockType := "LINE"; Text := "JOHN ADAM SMITH" |};
    {| BlockType := "WORD"; Text := "JOHN" |};
    {| BlockType := "LINE"; Text := "Dubai" |} ].

Definition card_path : string := "/tmp/upload/card.png".
Definition card_bytes : string := "PNG".
Definition card_key : string * string := ("id-bucket", "emirates_ids/card.png").

(** Services that work, with a model that answers [answer]. *)
Definition svc_answering (answer : result string) : Services :=
  {| local_file := fun p => if String.eqb p card_path then Some card_bytes else None;
     ocr := fun _ => ok card_blocks;
     chain_run := fun _ => answer;
     delete_outcome := fun _ _ => ok tt |}.

(** Services whose OCR service is down. *)
Definition svc_ocr_down : Services :=
  {| local_file := fun p => if String.eqb p card_path then Some card_bytes else None;
     ocr := fun _ => raise (ServiceError "Textract is unavailable");
     chain_run := fun _ => ok "{}";
     delete_outcome := fun _ _ => ok tt |}.

(** Services whose document store refuses to remove an object, with a
    model that answers [answer]. *)
Definition svc_delete_down (answer : result string) : Services :=
  {| local_file := fun p => if String.eqb p card_path then Some card_bytes else None;
     ocr := fun _ => ok card_blocks;
     chain_run := fun _ => answer;
     delete_outcome := fun _ _ => raise (ServiceError "Access Denied") |}.

(** An answer that is a JSON object with one key only. *)
Definition answer_name_only : string :=
  "{" ++ q "name" ++ ": " ++ q "JOHN ADAM SMITH" ++ "}".

Definition company : string := "MACKSOFY DATA MANAGEMENT & CYBER SECURITY SERVICES CO.".

(** The answer of the specification's example: the company under
    [profession], "Partner" under [sponsor]. *)
Definition answer_swapped : string :=
  "{" ++ q "profession" ++ ": " ++ q company ++ ", "
      ++ q "sponsor" ++ ": " ++ q "Partner" ++ "}".

(** An answer that is no JSON. *)
Definition answer_prose : string :=
  "The card belongs to JOHN ADAM SMITH, passport Z1234567.".


(** ** More shapes of the fallback *)

(** The city names of the place rule, in the order of the pattern. *)
Definition cities : list string :=
  ["Dubai"; "Abu Dhabi"; "Sharjah"; "Ajman"; "Umm Al Quwain"; "Ras Al Khaimah";
   "Fujairah"].

Section MoreShapes.
Context `{PyLib}.

(** [b] spells [a] up to the case of the letters, as [re.IGNORECASE]
    compares them. *)
Fixpoint ieq_str (a b : string) : bool :=
  match a, b with
  | EmptyString, EmptyString => true
  | String x a', String y b' => ieq x y && ieq_str a' b'
  | _, _ => false
  end.

(** A capital letter or a blank. *)
Definition upper_or_space (c : ascii) : bool := is_upper c || isspace c.
End MoreShapes.

(** Any character but the line feed: what [.] reads. *)
Definition not_newline (c : ascii) : bool := negb (Ascii.eqb c "010").

(** A text with a number of nine digits, one of fifteen and one glued
    to a letter. *)
Definition uid_text : string := "ID 784199012345678 a123456789 UID 123456789.".

Definition city_text : string := "Place of issue: ABU DHABI, later Dubai".

(** A value that is a string. *)
Definition is_string (v : json) : bool :=
  match v with
  | JString _ => true
  | _ => false
  end.

Definition is_object (v : json) : bool :=
  match v with
  | JObject _ => true
  | _ => false
  end.

(** The record of the specification's second example, and one with a
    sponsor that is [null]. *)
Definition record_accountant : gmap string json :=
  <["profession" := JString "Accountant"]>
  (<["sponsor" := JString "ABC Trading LLC"]> {["name" := JString "JOHN ADAM SMITH"]}).

Definition answer_null_sponsor : string :=
  "{" ++ q "profession" ++ ": " ++ q "Partner" ++ ", " ++ q "sponsor" ++ ": null}".

(** An answer that is a JSON array. *)
Definition answer_array : string := "[" ++ q "JOHN ADAM SMITH" ++ ", " ++ q "Dubai" ++ "]".

(** ** [display_results] *)

(** A double quote, to write the quoted attributes of the HTML. *)
Definition dquote : string := String AsciiLib.quote EmptyString.

(** The opening of the table. *)
Definition html_head : string :=
  "
    <div style=" ++ dquote ++ "background-color: #f5f5f5; padding: 20px; border-radius: 10px; margin: 20px 0;" ++ dquote ++ ">
        <h3 style=" ++ dquote ++ "color: #2c3e50; margin-bottom: 15px;" ++ dquote ++ ">Extracted Information</h3>
        <table style=" ++ dquote ++ "width: 100%; border-collapse: collapse;" ++ dquote ++ ">
    ".

(** The four pieces of a row, around the label, the colour and the value. *)
Definition row_open : string :=
  "
            <tr style=" ++ dquote ++ "border-bottom: 1px solid #ddd;" ++ dquote ++ ">
                <td style=" ++ dquote ++ "padding: 10px; font-weight: bold; color: #34495e; width: 30%;" ++ dquote ++ ">".

Definition row_label_end : string :=
  "</td>
                <td style=" ++ dquote ++ "padding: 10px; color: ".

Definition row_color_end : string :=
  ";" ++ dquote ++ ">".

Definition row_close : string :=
  "</td>
            </tr>
        ".

(** The closing of the table. *)
Definition html_foot : string :=
  "
        </table>
    </div>
    ".

(** The fields in the order of display, with their labels. *)
Definition fields : list (string * string) :=
  [("name", "Name"); ("uid_no", "UID Number"); ("passport_no", "Passport Number");
   ("profession", "Profession"); ("sponsor", "Sponsor");
   ("place_of_issue", "Place of Issue"); ("issue_date", "Issue Date");
   ("expiry_date", "Expiry Date")].

(** [value == "Not Found"] *)
Definition is_not_found (value : json) : bool :=
  match value with
  | JString s => String.eqb s NOT_FOUND
  | _ => false
  end.

Section Display.
(** [str(value)], the way an f-string formats a value; on a string it
    is the string itself. *)
Variable py_str : json -> string.

(** The body of the loop for one field. *)
Definition display_row (extracted_info : json) (field label : string) (html : string)
    : result string :=
  (let! value := py_get_default extracted_info field in
   let color := if is_not_found value then "#c0392b" else "#2c3e50" in
   ok (html ++ row_open ++ label ++ row_label_end ++ color ++ row_color_end
            ++ py_str value ++ row_close))%result.

Fixpoint display_rows (extracted_info : json) (fs : list (string * string)) (html : string)
    : result string :=
  match fs with
  | [] => ok html
  | (field, label) :: fs' =>
      (let! html := display_row extracted_info field label html in
       display_rows extracted_info fs' html)%result
  end.

(** [display_results]: the HTML it hands to [display]. *)
Definition display_results (extracted_info : json) : result string :=
  (let! html := display_rows extracted_info fields html_head in
   ok (html ++ html_foot))%result.
End Display.

(** [str] on the strings; the examples format no other value. *)
Definition str_of_json (v : json) : string :=
  match v with
  | JString s => s
  | _ => EmptyString
  end.

(** A record with the name only, and the same record with a number
    that is "Not Found" and a key outside the schema. *)
Definition record_name_only : gmap string json := {["name" := JString "JOHN ADAM SMITH"]}.

Definition record_name_padded : gmap string json :=
  <["uid_no" := JString NOT_FOUND]>
  (<["nationality" := JString "India"]> record_name_only).

(** ** The steps of the coordinator *)

(** The text made of the lines of an OCR answer. *)
Definition line_text (response : list Block) : string :=
  str_join " " (Text <$> List.filter is_line response).

(** A store that holds another object, and an older one under the key
    of the card. *)
Definition w_busy : World :=
  {| s3 := <[("id-bucket", "emirates_ids/other.png") := "OTHER"]>
           {[card_key := "OLD"]};
     trace := [] |}.

(** * Properties *)

(** ** Strings *)

Lemma str_app_assoc (a b c : string) : (a ++ b) ++ c = a ++ b ++ c.
Proof. induction a as [|x a IH]; simpl; [reflexivity | now rewrite IH]. Qed.

Lemma str_app_nil_r (a : string) : a ++ EmptyString = a.
Proof. induction a as [|x a IH]; simpl; [reflexivity | now rewrite IH]. Qed.

Lemma str_length_app (a b : string) :
  String.length (a ++ b) = String.length a + String.length b.
Proof. induction a as [|x a IH]; simpl; [reflexivity | now rewrite IH]. Qed.

Lemma str_take_app (w s : string) :
  str_take (String.length (w ++ s) - String.length s) (w ++ s) = w.
Proof.
  rewrite str_length_app.
  replace (String.length w + String.length s - String.length s)
    with (String.length w) by lia.
  induction w as [|x w IH]; simpl.
  - destruct s; reflexivity.
  - now rewrite IH.
Qed.

Lemma str_drop_app (w s : string) : str_drop (String.length w) (w ++ s) = s.
Proof. induction w as [|x w IH]; simpl; [destruct s; reflexivity | exact IH]. Qed.

Lemma str_app_inv_head (a b c : string) : a ++ b = a ++ c -> b = c.
Proof. induction a as [|x a IH]; simpl; intros E; [exact E | injection E; auto]. Qed.

Lemma str_app_inv_len (a b c d : string) :
  a ++ b = c ++ d -> String.length a = String.length c -> a = c /\ b = d.
Proof.
  revert c. induction a as [|x a IH]; intros [|y c] E L; simpl in *; try discriminate.
  - split; [reflexivity | exact E].
  - injection E as -> E. injection L as L.
    destruct (IH _ E L) as [-> ->]. split; reflexivity.
Qed.

Lemma str_last_app p a b : str_last p (a ++ b) = str_last (str_last p a) b.
Proof. revert p. induction a as [|x a IH]; intros p; simpl; [reflexivity | apply IH]. Qed.

Lemma str_all_app f a b : str_all f (a ++ b) = str_all f a && str_all f b.
Proof.
  induction a as [|x a IH]; simpl; [reflexivity |].
  rewrite IH. now rewrite andb_assoc.
Qed.

Lemma prefix_app (a s : string) : String.prefix a s = true -> exists r, s = a ++ r.
Proof.
  revert s. induction a as [|x a IH]; intros s E.
  - exists s. reflexivity.
  - destruct s as [|y s]; simpl in E; [discriminate |].
    destruct (Ascii.ascii_dec x y) as [->|]; [| discriminate].
    destruct (IH _ E) as [r ->]. exists r. reflexivity.
Qed.

Lemma prefix_app_true (a r : string) : String.prefix a (a ++ r) = true.
Proof.
  induction a as [|x a IH]; simpl.
  - destruct r; reflexivity.
  - destruct (Ascii.ascii_dec x x); [exact IH | congruence].
Qed.

Lemma str_take_drop n (s : string) : str_take n s ++ str_drop n s = s.
Proof.
  revert s. induction n as [|n IH]; intros [|x s]; simpl; try reflexivity.
  now rewrite IH.
Qed.


Lemma str_drop_length n (s : string) :
  String.length (str_drop n s) = String.length s - n.
Proof.
  revert s. induction n as [|n IH]; intros [|x s]; simpl; try reflexivity; try lia.
  apply IH.
Qed.

Lemma str_drop_add a b (s : string) : str_drop (a + b) s = str_drop b (str_drop a s).
Proof.
  revert s. induction a as [|a IH]; intros s; simpl; [reflexivity |].
  destruct s as [|x s]; [destruct b; reflexivity | apply IH].
Qed.

Lemma str_take_app_len (w s : string) : str_take (String.length w) (w ++ s) = w.
Proof. induction w as [|x w IH]; simpl; [destruct s; reflexivity | now rewrite IH]. Qed.

Lemma str_split_at (pre s : string) text :
  text = pre ++ s -> s = str_drop (String.length pre) text.
Proof. intros ->. now rewrite str_drop_app. Qed.

Lemma str_app_inv_tail (a b c : string) : a ++ c = b ++ c -> a = b.
Proof.
  intros E. apply (str_app_inv_len a c b c E).
  apply (f_equal String.length) in E. rewrite !str_length_app in E. lia.
Qed.

Lemma str_nonempty_length (w : string) : w <> EmptyString <-> (0 < String.length w)%nat.
Proof. destruct w; simpl; split; intros; try congruence; lia. Qed.

(** ** The matcher against the meaning of patterns *)

Section MatcherTheory.
Context `{PyLib}.
Variable icase : bool.


Lemma step_char_some {R} (f : ascii -> bool) s (k : option ascii -> string -> option R) x :
  step_char f s k = Some x ->
  exists c s', s = String c s' /\ f c = true /\ k (Some c) s' = Some x.
Proof.
  destruct s as [|c s']; simpl; [discriminate |].
  destruct (f c) eqn:E; [| discriminate]. eauto.
Qed.

Lemma rep_loop_sound {R} (a : regex)
    (IH : forall p s (k : option ascii -> string -> option R) x,
        rx icase a p s k = Some x ->
        exists c', matches icase a (p, s) c' /\ k (fst c') (snd c') = Some x) :
  forall fuel lo hi p s (k : option ascii -> string -> option R) x,
    rep_loop (rx icase a) fuel lo hi p s k = Some x ->
    exists c', matches icase (Rep a lo hi) (p, s) c' /\ k (fst c') (snd c') = Some x.
Proof.
  induction fuel as [|fuel IHf]; intros lo hi p s k x E; simpl in E; [discriminate |].
  destruct (hi_open hi) eqn:Hopen.
  - destruct (rx icase a p s _) as [y|] eqn:Emore.
    + injection E as ->.
      apply IH in Emore. destruct Emore as [[p1 s1] [M1 K1]]. simpl in K1.
      destruct (String.length s1 <? String.length s)%nat eqn:Hlt; [| discriminate].
      apply Nat.ltb_lt in Hlt.
      apply IHf in K1. destruct K1 as [c' [M2 K2]].
      exists c'. split; [| exact K2].
      eapply m_rep_more; eauto.
    + destruct (lo =? 0)%nat eqn:Hlo; [| discriminate].
      apply Nat.eqb_eq in Hlo. subst lo.
      exists (p, s). split; [constructor | exact E].
  - destruct (lo =? 0)%nat eqn:Hlo; [| discriminate].
    apply Nat.eqb_eq in Hlo. subst lo.
    exists (p, s). split; [constructor | exact E].
Qed.

(** Whatever the matcher returns went through a match of the pattern. *)
Lemma rx_sound {R} (r : regex) :
  forall p s (k : option ascii -> string -> option R) x,
    rx icase r p s k = Some x ->
    exists c', matches icase r (p, s) c' /\ k (fst c') (snd c') = Some x.
Proof.
  induction r as [d| | |lo hi| | |a IHa b IHb|a IHa b IHb|a IHa lo hi|a IHa];
    intros p s k x E.
  1-5: apply step_char_some in E; destruct E as (c & s' & -> & T & K);
       exists (Some c, s'); split; [constructor; exact T | exact K].
  - simpl in E. destruct (at_boundary p s) eqn:B; [| discriminate].
    exists (p, s). split; [constructor; exact B | exact E].
  - simpl in E. apply IHa in E. destruct E as [[p1 s1] [M1 E]]. simpl in E.
    apply IHb in E. destruct E as [c' [M2 K]].
    exists c'. split; [econstructor; eauto | exact K].
  - simpl in E. destruct (rx icase a p s k) as [y|] eqn:Ea.
    + injection E as ->. apply IHa in Ea. destruct Ea as [c' [M1 K]].
      exists c'. split; [apply m_alt_l; exact M1 | exact K].
    + apply IHb in E. destruct E as [c' [M1 K]].
      exists c'. split; [apply m_alt_r; exact M1 | exact K].
  - eapply rep_loop_sound; [exact IHa | exact E].
  - simpl in E. apply IHa in E. destruct E as [c' [M1 K]].
    exists c'. split; [constructor; exact M1 | exact K].
Qed.

Lemma rep_loop_complete {R} (a : regex)
    (IH : forall c c', matches icase a c c' ->
        forall k : option ascii -> string -> option R,
          is_Some (k (fst c') (snd c')) -> is_Some (rx icase a (fst c) (snd c) k)) :
  forall fuel lo hi p s c' (k : option ascii -> string -> option R),
    (String.length s < fuel)%nat ->
    matches icase (Rep a lo hi) (p, s) c' ->
    is_Some (k (fst c') (snd c')) ->
    is_Some (rep_loop (rx icase a) fuel lo hi p s k).
Proof.
  induction fuel as [|fuel IHf]; intros lo hi p s c' k Hfuel Hm Hk; [lia |].
  simpl. inversion Hm; subst; try (simpl in *; discriminate).
  - (* stop *)
    simpl in Hk.
    destruct (if hi_open hi then _ else None) as [y|]; [eexists; reflexivity | exact Hk].
  - (* one more round *)
    match goal with Hopen : hi_open hi = true |- _ => rewrite Hopen end.
    destruct c2 as [p2 s2]. simpl in *.
    match goal with Hbody : matches icase a (p, s) (p2, s2) |- _ =>
      pose proof (IH _ _ Hbody) as Hbody' end.
    simpl in Hbody'.
    match goal with |- is_Some (match ?e with _ => _ end) =>
      assert (Hs : is_Some e) end.
    { apply Hbody'.
      match goal with Hlt : (String.length s2 < String.length s)%nat |- _ =>
        apply Nat.ltb_lt in Hlt as Hb; rewrite Hb end.
      eapply IHf; eauto. lia. }
    destruct Hs as [y ->]. eexists; reflexivity.
Qed.

(** A match of the pattern whose end the continuation accepts is not
    missed: the matcher tries every way. *)
Lemma rx_complete {R} (r : regex) :
  forall c c', matches icase r c c' ->
    forall k : option ascii -> string -> option R,
      is_Some (k (fst c') (snd c')) -> is_Some (rx icase r (fst c) (snd c) k).
Proof.
  induction r as [d| | |lo hi| | |a IHa b IHb|a IHa b IHb|a IHa lo hi|a IHa];
    intros c c' Hm k Hk.
  1-5: inversion Hm; subst; simpl in *;
       match goal with T : _ = true |- _ => rewrite T end; exact Hk.
  - inversion Hm; subst; simpl in *; try discriminate.
    match goal with B : at_boundary _ _ = true |- _ => rewrite B end. exact Hk.
  - inversion Hm; subst; simpl in *; try discriminate.
    eapply IHa; [eassumption |]. simpl. eapply IHb; eassumption.
  - inversion Hm; subst; simpl in *; try discriminate.
    + match goal with M : matches icase a _ _ |- _ =>
        destruct (IHa _ _ M k Hk) as [y Hy] end.
      rewrite Hy. eexists; reflexivity.
    + destruct (rx icase a _ _ k); [eexists; reflexivity |].
      eapply IHb; eauto.
  - destruct c as [p s].
    change (is_Some (rep_loop (rx icase a) (S (String.length s)) lo hi p s k)).
    eapply rep_loop_complete; [exact IHa | lia | exact Hm | exact Hk].
  - inversion Hm; subst; simpl in *; try discriminate.
    eapply IHa; eauto.
Qed.

(** A match reads a prefix of the text. *)
Lemma matches_split r c c' :
  matches icase r c c' ->
  exists w, snd c = w ++ snd c' /\ fst c' = str_last (fst c) w.
Proof.
  induction 1 as [r c p s T|p s B|a b c1 c2 c3 _ [w1 [E1 L1]] _ [w2 [E2 L2]]
                 |a b c1 c2 _ IH|a b c1 c2 _ IH|a hi c
                 |a lo hi c1 c2 c3 _ _ [w1 [E1 L1]] _ _ [w2 [E2 L2]]|a c1 c2 _ IH];
    simpl in *.
  - exists (String c EmptyString). split; reflexivity.
  - exists EmptyString. split; reflexivity.
  - exists (w1 ++ w2). rewrite E1, E2, L2, L1, str_app_assoc, str_last_app. split; reflexivity.
  - exact IH.
  - exact IH.
  - exists EmptyString. split; reflexivity.
  - exists (w1 ++ w2). rewrite E1, E2, L2, L1, str_app_assoc, str_last_app. split; reflexivity.
  - exact IH.
Qed.

(** A match is at least [min_len] long. *)
Lemma matches_min_len r c c' :
  matches icase r c c' ->
  (String.length (snd c') + min_len r <= String.length (snd c))%nat.
Proof.
  induction 1 as [r c p s T|p s B|a b c1 c2 c3 _ IH1 _ IH2
                 |a b c1 c2 _ IH|a b c1 c2 _ IH|a hi c
                 |a lo hi c1 c2 c3 _ _ IH1 Hlt _ IH2|a c1 c2 _ IH];
    simpl in *; try lia.
  - destruct r; simpl in *; try discriminate; lia.
  - destruct lo as [|lo]; simpl in *; lia.
Qed.
End MatcherTheory.

(** ** [re.search] and [re.findall] against the meaning of patterns *)

Section SearchTheory.
Context `{PyLib}.
Variable icase : bool.


Lemma match_here_sound r p s c :
  match_here icase r p s = Some c -> matches icase r (p, s) c.
Proof.
  unfold match_here. intros E. apply rx_sound in E.
  destruct E as [[p' s'] [Hm E]]. simpl in E. injection E as <-. exact Hm.
Qed.

Lemma match_here_complete r p s c :
  matches icase r (p, s) c -> is_Some (match_here icase r p s).
Proof.
  intros Hm. unfold match_here.
  apply (rx_complete icase r (p, s) c Hm). eexists; reflexivity.
Qed.

Lemma match_here_none r p s c :
  match_here icase r p s = None -> ~ matches icase r (p, s) c.
Proof.
  intros E Hm. apply match_here_complete in Hm. rewrite E in Hm.
  destruct Hm as [x Hx]. discriminate.
Qed.

(** The text of a match, as [matched] cuts it out. *)
Lemma matched_spec r p s c :
  matches icase r (p, s) c ->
  s = matched s c ++ snd c
  /\ fst c = str_last p (matched s c)
  /\ (min_len r <= String.length (matched s c))%nat.
Proof.
  intros Hm.
  destruct (matches_split _ _ _ _ Hm) as [w [E L]]. simpl in E, L.
  pose proof (matches_min_len _ _ _ _ Hm) as Hlen. simpl in Hlen.
  unfold matched. rewrite E, str_take_app.
  rewrite E, str_length_app in Hlen.
  repeat split; [exact L | lia].
Qed.

Lemma search_from_unfold r pos p s :
  search_from icase r pos p s =
  match match_here icase r p s with
  | Some c => Some (pos, matched s c)
  | None =>
      match s with
      | EmptyString => None
      | String a s' => search_from icase r (S pos) (Some a) s'
      end
  end.
Proof. destruct s; reflexivity. Qed.

Lemma search_from_some r :
  forall s pos p i w,
    search_from icase r pos p s = Some (i, w) ->
    exists pre post p',
      s = pre ++ w ++ post
      /\ i = pos + String.length pre
      /\ matches icase r (str_last p pre, w ++ post) (p', post)
      /\ (min_len r <= String.length w)%nat
      /\ forall pre' s' c',
           s = pre' ++ s' -> (String.length pre' < String.length pre)%nat ->
           ~ matches icase r (str_last p pre', s') c'.
Proof.
  induction s as [|a s IH]; intros pos p i w E; rewrite search_from_unfold in E.
  - destruct (match_here icase r p EmptyString) as [c|] eqn:Em; [| discriminate].
    injection E as <- <-.
    apply match_here_sound in Em.
    destruct (matched_spec _ _ _ _ Em) as (E1 & E2 & E3).
    exists EmptyString, (snd c), (fst c).
    change (EmptyString ++ matched EmptyString c ++ snd c)
      with (matched EmptyString c ++ snd c).
    rewrite <- E1. destruct c as [p' s'].
    repeat split; [simpl; lia | exact Em | exact E3 |].
    intros pre' s'' c' _ Hlt. simpl in Hlt. lia.
  - destruct (match_here icase r p (String a s)) as [c|] eqn:Em.
    + injection E as <- <-.
      apply match_here_sound in Em.
      destruct (matched_spec _ _ _ _ Em) as (E1 & E2 & E3).
      exists EmptyString, (snd c), (fst c).
      change (EmptyString ++ matched (String a s) c ++ snd c)
        with (matched (String a s) c ++ snd c).
      rewrite <- E1. destruct c as [p' s'].
      repeat split; [simpl; lia | exact Em | exact E3 |].
      intros pre' s'' c' _ Hlt. simpl in Hlt. lia.
    + apply IH in E. destruct E as (pre & post & p' & E1 & E2 & E3 & E4 & E5).
      exists (String a pre), post, p'.
      repeat split; [simpl; now rewrite E1 | simpl; lia | exact E3 | exact E4 |].
      intros [|b pre'] s' c' Hs Hlt; simpl in *.
      * subst s'. apply match_here_none. exact Em.
      * injection Hs as <- Hs. apply (E5 pre' s' c' Hs). lia.
Qed.

Lemma search_from_none r :
  forall s pos p,
    search_from icase r pos p s = None ->
    forall pre' s' c', s = pre' ++ s' -> ~ matches icase r (str_last p pre', s') c'.
Proof.
  induction s as [|a s IH]; intros pos p E pre' s' c' Hs;
    rewrite search_from_unfold in E.
  - destruct (match_here icase r p EmptyString) as [c|] eqn:Em; [discriminate |].
    destruct pre'; [| discriminate]. simpl in Hs. subst s'.
    apply match_here_none. exact Em.
  - destruct (match_here icase r p (String a s)) as [c|] eqn:Em; [discriminate |].
    destruct pre' as [|b pre']; simpl in *.
    + subst s'. apply match_here_none. exact Em.
    + injection Hs as <- Hs. eapply IH; eauto.
Qed.

(** [re.search] returns the leftmost match of the pattern. *)
Lemma re_search_some r text i w :
  re_search icase r text = Some (i, w) ->
  exists pre,
    String.length pre = i /\ leftmost_match icase r text pre w
    /\ (min_len r <= String.length w)%nat.
Proof.
  intros E. apply search_from_some in E.
  destruct E as (pre & post & p' & E1 & E2 & E3 & E4 & E5).
  exists pre. repeat split; [lia | | | exact E4].
  - exists post, p'. split; assumption.
  - intros pre' Hlt (s' & c' & Hs & Hm). eapply E5; eauto.
Qed.

(** [re.search] returns [None] only when the pattern matches icase nowhere. *)
Lemma re_search_none r text :
  re_search icase r text = None -> no_match icase r text.
Proof.
  intros E pre (s' & c' & Hs & Hm). eapply search_from_none; eauto.
Qed.

Lemma re_search_found r text pre :
  match_at icase r text pre -> is_Some (re_search icase r text).
Proof.
  intros Hm. destruct (re_search icase r text) as [x|] eqn:E; [eexists; reflexivity |].
  exfalso. apply re_search_none in E. exact (E pre Hm).
Qed.

(** *** [re.findall] *)

Lemma findall_from_S r fuel p s :
  findall_from icase r (S fuel) p s =
  match match_here icase r p s with
  | Some c =>
      if (String.length (snd c) <? String.length s)%nat
      then matched s c :: findall_from icase r fuel (fst c) (snd c)
      else matched s c ::
           match s with
           | EmptyString => []
           | String a s' => findall_from icase r fuel (Some a) s'
           end
  | None =>
      match s with
      | EmptyString => []
      | String a s' => findall_from icase r fuel (Some a) s'
      end
  end.
Proof. reflexivity. Qed.

Lemma findall_from_fuel r :
  forall fuel1 fuel2 p s,
    (String.length s < fuel1)%nat -> (String.length s < fuel2)%nat ->
    findall_from icase r fuel1 p s = findall_from icase r fuel2 p s.
Proof.
  induction fuel1 as [|fuel1 IH]; intros [|fuel2] p s H1 H2; try lia.
  rewrite !findall_from_S.
  destruct (match_here icase r p s) as [[p' s']|] eqn:Em; simpl.
  - destruct (String.length s' <? String.length s)%nat eqn:Hlt.
    + apply Nat.ltb_lt in Hlt. f_equal. apply IH; lia.
    + destruct s as [|a s0]; [reflexivity |]. simpl in *. f_equal. apply IH; lia.
  - destruct s as [|a s0]; [reflexivity |]. simpl in *. apply IH; lia.
Qed.

Lemma re_findall_findall r text : re_findall icase r text = findall icase r None text.
Proof. reflexivity. Qed.

Lemma findall_skip r p a s :
  match_here icase r p (String a s) = None ->
  findall icase r p (String a s) = findall icase r (Some a) s.
Proof.
  intros Em. unfold findall. rewrite findall_from_S, Em.
  apply findall_from_fuel; simpl; lia.
Qed.

Lemma findall_end r p :
  match_here icase r p EmptyString = None -> findall icase r p EmptyString = [].
Proof. intros Em. unfold findall. rewrite findall_from_S, Em. reflexivity. Qed.

Lemma findall_take r p s c :
  match_here icase r p s = Some c ->
  (0 < min_len r)%nat ->
  findall icase r p s = matched s c :: findall icase r (fst c) (snd c).
Proof.
  intros Em Hpos. unfold findall. rewrite findall_from_S, Em.
  apply match_here_sound in Em.
  pose proof (matches_min_len _ _ _ _ Em) as Hlen. simpl in Hlen.
  assert (Hlt : (String.length (snd c) <? String.length s)%nat = true)
    by (apply Nat.ltb_lt; lia).
  rewrite Hlt. f_equal. apply findall_from_fuel; lia.
Qed.

(** A stretch of text in which no match starts is skipped. *)
Lemma findall_skip_prefix r :
  forall pre p s,
    (forall pre' s', pre ++ s = pre' ++ s' ->
       (String.length pre' < String.length pre)%nat ->
       match_here icase r (str_last p pre') s' = None) ->
    findall icase r p (pre ++ s) = findall icase r (str_last p pre) s.
Proof.
  induction pre as [|a pre IH]; intros p s Hno; simpl; [reflexivity |].
  rewrite findall_skip.
  - apply IH. intros pre' s' E Hlt.
    apply (Hno (String a pre') s'); simpl; [now rewrite E | lia].
  - apply (Hno EmptyString (String a (pre ++ s))); simpl; [reflexivity | lia].
Qed.

(** Every text that [re.findall] returns is at least [min_len] long. *)
Lemma findall_from_min_len r :
  forall fuel p s w,
    In w (findall_from icase r fuel p s) -> (min_len r <= String.length w)%nat.
Proof.
  induction fuel as [|fuel IH]; intros p s w Hin; simpl in Hin; [contradiction |].
  destruct (match_here icase r p s) as [c|] eqn:Em.
  - apply match_here_sound in Em.
    destruct (matched_spec _ _ _ _ Em) as (_ & _ & Hlen).
    destruct (String.length (snd c) <? String.length s)%nat.
    + destruct Hin as [<- | Hin]; [exact Hlen | eauto].
    + destruct Hin as [<- | Hin]; [exact Hlen |].
      destruct s; [contradiction | eauto].
  - destruct s; [contradiction | eauto].
Qed.
End SearchTheory.

(** ** Fixed runs of one-character patterns *)

Section Atoms.
Context `{PyLib}.
Variable icase : bool.


Lemma matches_atom_inv a p s c' :
  is_atom a = true -> matches icase a (p, s) c' ->
  exists x, s = String x (snd c') /\ fst c' = Some x /\ char_test icase a x = true.
Proof.
  intros Ha Hm. inversion Hm; subst; simpl in Ha; try discriminate.
  eexists. repeat split. assumption.
Qed.

Lemma matches_seq_inv a b c c' :
  matches icase (Seq a b) c c' -> exists c1, matches icase a c c1 /\ matches icase b c1 c'.
Proof. intros Hm. inversion Hm; subst; simpl in *; try discriminate. eauto. Qed.

Lemma matches_grp_inv a c c' : matches icase (Grp a) c c' -> matches icase a c c'.
Proof. intros Hm. inversion Hm; subst; simpl in *; try discriminate. assumption. Qed.

(** [a{lo,}] with [lo] positive: one round, then [a{lo-1,}]. *)
Lemma matches_rep_pos_inv a lo hi c c' :
  matches icase (Rep a (S lo) hi) c c' ->
  exists c1, matches icase a c c1 /\ matches icase (Rep a lo (hi_pred hi)) c1 c'.
Proof. intros Hm. inversion Hm; subst; simpl in *; try discriminate. eauto. Qed.

(** [a{n}] for a one-character pattern reads [n] characters that pass
    its test. *)
Lemma matches_times_inv a n :
  is_atom a = true ->
  forall p s c',
    matches icase (Times n a) (p, s) c' ->
    exists w, s = w ++ snd c' /\ String.length w = n
              /\ str_all (char_test icase a) w = true /\ fst c' = str_last p w.
Proof.
  intros Ha. unfold Times. induction n as [|n IH]; intros p s c' Hm.
  - inversion Hm; subst; simpl in *; try discriminate.
    exists EmptyString. repeat split.
  - apply matches_rep_pos_inv in Hm. destruct Hm as [[p1 s1] [Hm1 Hm2]].
    apply (matches_atom_inv _ _ _ _ Ha) in Hm1.
    destruct Hm1 as (x & -> & Hp & Hx). simpl in Hp. subst p1.
    simpl in Hm2. apply IH in Hm2. destruct Hm2 as (w & -> & Hl & Hall & Hp).
    exists (String x w). simpl. rewrite Hx, Hall, Hl. repeat split. exact Hp.
Qed.

Lemma matches_times_intro a n :
  forall w p rest,
    String.length w = n -> str_all (char_test icase a) w = true ->
    matches icase (Times n a) (p, w ++ rest) (str_last p w, rest).
Proof.
  unfold Times. induction n as [|n IH]; intros w p rest Hl Hall.
  - destruct w; [| discriminate]. simpl. constructor.
  - destruct w as [|x w]; [discriminate |]. simpl in *.
    apply andb_prop in Hall. destruct Hall as [Hx Hall]. injection Hl as Hl.
    eapply m_rep_more with (c2 := (Some x, w ++ rest)).
    + reflexivity.
    + constructor. exact Hx.
    + simpl. lia.
    + simpl. apply IH; assumption.
Qed.
(** [a{lo,}] for a one-character pattern reads at least [lo]
    characters that pass its test. *)
Lemma matches_rep_atom_inv a :
  is_atom a = true ->
  forall r c c',
    matches icase r c c' ->
    forall lo, r = Rep a lo None ->
    exists w, snd c = w ++ snd c' /\ (lo <= String.length w)%nat
              /\ str_all (char_test icase a) w = true.
Proof.
  intros Ha r c c' Hm.
  induction Hm as [r c p s T|p s B|x y c1 c2 c3 _ _ _ _
                  |x y c1 c2 _ _|x y c1 c2 _ _|x hi c
                  |x lo' hi c1 c2 c3 Hopen Hbody _ Hlt Hrest IH|x c1 c2 _ _];
    intros lo E; try discriminate.
  - subst r. simpl in T. discriminate.
  - injection E as -> <- ->. exists EmptyString. repeat split. simpl. lia.
  - injection E as -> -> ->.
    destruct c1 as [p1 s1]. apply (matches_atom_inv _ _ _ _ Ha) in Hbody.
    destruct Hbody as (ch & -> & _ & Hch).
    destruct (IH (Nat.pred lo) eq_refl) as (w & Ew & Hl & Hall).
    exists (String ch w). simpl. rewrite Ew, Hch, Hall. repeat split. lia.
Qed.

End Atoms.

(** ** The patterns of the fallback, read *)

Section Patterns.
Context `{PyLib}.


Lemma matches_lit_inv d p s c' :
  matches false (Lit d) (p, s) c' -> s = String d (snd c') /\ fst c' = Some d.
Proof.
  intros Hm. apply matches_atom_inv in Hm; [| reflexivity].
  destruct Hm as (x & -> & -> & Hx). simpl in Hx.
  apply Ascii.eqb_eq in Hx. subst x. split; reflexivity.
Qed.

Lemma matches_lit_intro d p s : matches false (Lit d) (p, String d s) (Some d, s).
Proof. constructor. simpl. apply Ascii.eqb_refl. Qed.

(** A literal string matches false itself and nothing else. *)
Lemma matches_str_inv lit :
  lit <> EmptyString ->
  forall p s c', matches false (Str lit) (p, s) c' -> s = lit ++ snd c'.
Proof.
  induction lit as [|d lit IH]; intros Hne p s c' Hm; [congruence |].
  destruct lit as [|e lit].
  - simpl in Hm. apply matches_lit_inv in Hm. destruct Hm as [-> _]. reflexivity.
  - change (Str (String d (String e lit))) with (Seq (Lit d) (Str (String e lit))) in Hm.
    apply matches_seq_inv in Hm. destruct Hm as [[p1 s1] [Hm1 Hm2]].
    apply matches_lit_inv in Hm1. destruct Hm1 as [-> _]. simpl.
    apply IH in Hm2; [| discriminate]. simpl in Hm2. rewrite Hm2. reflexivity.
Qed.

(** *** The date pattern *)

Lemma is_date_length s : is_date s = true -> (10 <= String.length s)%nat.
Proof.
  unfold is_date.
  repeat (destruct s as [|? s]; [discriminate |]). simpl. lia.
Qed.

Lemma date_re_inv p s c' :
  matches false date_re (p, s) c' ->
  is_date s = true /\ c' = (str_last p (str_take 10 s), str_drop 10 s).
Proof.
  unfold date_re. intros Hm.
  apply matches_seq_inv in Hm. destruct Hm as [[p1 s1] [Hm1 Hm]].
  apply matches_seq_inv in Hm. destruct Hm as [[p2 s2] [Hm2 Hm]].
  apply matches_seq_inv in Hm. destruct Hm as [[p3 s3] [Hm3 Hm]].
  apply matches_seq_inv in Hm. destruct Hm as [[p4 s4] [Hm4 Hm5]].
  apply matches_times_inv in Hm1; [| reflexivity].
  apply matches_times_inv in Hm3; [| reflexivity].
  apply matches_times_inv in Hm5; [| reflexivity].
  apply matches_lit_inv in Hm2. apply matches_lit_inv in Hm4.
  destruct c' as [p' s']. simpl in *.
  destruct Hm1 as (w1 & -> & L1 & A1 & ->).
  destruct Hm2 as (-> & ->).
  destruct Hm3 as (w3 & -> & L3 & A3 & ->).
  destruct Hm4 as (-> & ->).
  destruct Hm5 as (w5 & -> & L5 & A5 & ->).
  do 5 (destruct w1 as [|? w1]; try discriminate).
  do 3 (destruct w3 as [|? w3]; try discriminate).
  do 3 (destruct w5 as [|? w5]; try discriminate).
  simpl in *.
  repeat match goal with
         | Hc : _ && _ = true |- _ => apply andb_prop in Hc; destruct Hc
         end.
  repeat match goal with
         | Hc : isdigit _ = true |- _ => rewrite Hc; clear Hc
         end.
  split; reflexivity.
Qed.

Lemma date_re_intro p s :
  is_date s = true ->
  matches false date_re (p, s) (str_last p (str_take 10 s), str_drop 10 s).
Proof.
  intros Hd. unfold is_date in Hd.
  destruct s as [|d0 [|d1 [|d2 [|d3 [|s1 [|d4 [|d5 [|s2 [|d6 [|d7 s]]]]]]]]]];
    try discriminate.
  rewrite !andb_true_iff in Hd.
  destruct Hd as (((((((((D0 & D1) & D2) & D3) & S1) & D4) & D5) & S2) & D6) & D7).
  apply Ascii.eqb_eq in S1, S2. subst s1 s2.
  simpl. unfold date_re.
  eapply m_seq.
  { apply (matches_times_intro false Digit 4
             (String d0 (String d1 (String d2 (String d3 EmptyString))))).
    - reflexivity.
    - simpl. now rewrite D0, D1, D2, D3. }
  simpl. eapply m_seq; [apply matches_lit_intro |].
  eapply m_seq.
  { apply (matches_times_intro false Digit 2 (String d4 (String d5 EmptyString))).
    - reflexivity.
    - simpl. now rewrite D4, D5. }
  simpl. eapply m_seq; [apply matches_lit_intro |].
  apply (matches_times_intro false Digit 2 (String d6 (String d7 EmptyString))).
  - reflexivity.
  - simpl. now rewrite D6, D7.
Qed.

(** *** The passport pattern *)

Lemma is_passport_length s : is_passport s = true -> (8 <= String.length s)%nat.
Proof.
  unfold is_passport.
  repeat (destruct s as [|? s]; [discriminate |]). simpl. lia.
Qed.

Lemma passport_re_inv p s c' :
  matches false passport_re (p, s) c' ->
  is_passport s = true /\ c' = (str_last p (str_take 8 s), str_drop 8 s).
Proof.
  unfold passport_re. intros Hm.
  apply matches_seq_inv in Hm. destruct Hm as [[p1 s1] [Hm1 Hm2]].
  apply matches_lit_inv in Hm1.
  apply matches_times_inv in Hm2; [| reflexivity].
  destruct c' as [p' s']. simpl in *.
  destruct Hm1 as (-> & ->).
  destruct Hm2 as (w & -> & L & A & ->).
  do 8 (destruct w as [|? w]; try discriminate).
  simpl in *. rewrite !andb_true_iff in A.
  destruct A as (D1 & D2 & D3 & D4 & D5 & D6 & D7 & _).
  rewrite D1, D2, D3, D4, D5, D6, D7. split; reflexivity.
Qed.

Lemma passport_re_intro p s :
  is_passport s = true ->
  matches false passport_re (p, s) (str_last p (str_take 8 s), str_drop 8 s).
Proof.
  intros Hd. unfold is_passport in Hd.
  destruct s as [|z [|d1 [|d2 [|d3 [|d4 [|d5 [|d6 [|d7 s]]]]]]]]; try discriminate.
  rewrite !andb_true_iff in Hd.
  destruct Hd as (((((((Z & D1) & D2) & D3) & D4) & D5) & D6) & D7).
  apply Ascii.eqb_eq in Z. subst z.
  simpl. unfold passport_re.
  eapply m_seq; [apply matches_lit_intro |].
  apply (matches_times_intro false Digit 7
           (String d1 (String d2 (String d3 (String d4 (String d5
              (String d6 (String d7 EmptyString)))))))).
  - reflexivity.
  - simpl. now rewrite D1, D2, D3, D4, D5, D6, D7.
Qed.

(** *** The sponsor pattern *)

Lemma sponsor_re_inv p s c' :
  matches false sponsor_re (p, s) c' ->
  exists mid, s = ("MACKSOFY" ++ mid ++ "SERVICES CO.") ++ snd c'.
Proof.
  unfold sponsor_re. intros Hm.
  apply matches_seq_inv in Hm. destruct Hm as [[p1 s1] [Hm1 Hm]].
  apply matches_seq_inv in Hm. destruct Hm as [[p2 s2] [Hm2 Hm3]].
  apply matches_str_inv in Hm1; [| discriminate].
  apply matches_split in Hm2. destruct Hm2 as [mid [Hmid _]].
  apply matches_str_inv in Hm3; [| discriminate].
  simpl in Hm1, Hmid, Hm3. subst s s1 s2.
  exists mid. now rewrite !str_app_assoc.
Qed.

(** *** The name pattern *)

Lemma plus_upper_inv c c' :
  matches false (Plus (Range "A" "Z")) c c' ->
  exists w, snd c = w ++ snd c' /\ caps_word w.
Proof.
  intros Hm.
  destruct (matches_rep_atom_inv false (Range "A" "Z") eq_refl _ _ _ Hm 1 eq_refl)
    as (w & E & Hl & Hall).
  exists w. split; [exact E |]. split; [| exact Hall].
  apply str_nonempty_length. lia.
Qed.

Lemma plus_space_inv c c' :
  matches false (Plus Space) c c' ->
  exists w, snd c = w ++ snd c' /\ blanks w.
Proof.
  intros Hm.
  destruct (matches_rep_atom_inv false Space eq_refl _ _ _ Hm 1 eq_refl)
    as (w & E & Hl & Hall).
  exists w. split; [exact E |]. split; [| exact Hall].
  apply str_nonempty_length. lia.
Qed.

(** One round of [([A-Z]+\s+)]. *)
Lemma name_group_inv c c' :
  matches false (Grp (Seq (Plus (Range "A" "Z")) (Plus Space))) c c' ->
  exists u b, snd c = u ++ b ++ snd c' /\ caps_word u /\ blanks b.
Proof.
  intros Hm. apply matches_grp_inv in Hm.
  apply matches_seq_inv in Hm. destruct Hm as [c1 [Hm1 Hm2]].
  apply plus_upper_inv in Hm1. destruct Hm1 as (u & Eu & Hu).
  apply plus_space_inv in Hm2. destruct Hm2 as (b & Eb & Hb).
  exists u, b. rewrite Eu, Eb. repeat split; apply Hu || apply Hb.
Qed.

Lemma caps_word_head u :
  caps_word u -> exists c u', u = String c u' /\ is_upper c = true.
Proof.
  intros [Hne Hall]. destruct u as [|c u']; [congruence |].
  simpl in Hall. apply andb_prop in Hall. destruct Hall as [Hc _]. eauto.
Qed.

(** Whatever further rounds and the last word read begins with a
    capital letter. *)
Lemma name_tail_inv c c1 c' :
  matches false (Rep (Grp (Seq (Plus (Range "A" "Z")) (Plus Space))) 0 None) c c1 ->
  matches false (Plus (Range "A" "Z")) c1 c' ->
  exists x rest, snd c = String x rest ++ snd c' /\ is_upper x = true.
Proof.
  intros Hrep Hlast.
  apply plus_upper_inv in Hlast. destruct Hlast as (w & Ew & Hw).
  inversion Hrep; subst; simpl in *; try discriminate.
  - apply caps_word_head in Hw. destruct Hw as (x & w' & -> & Hx).
    exists x, w'. split; [exact Ew | exact Hx].
  - match goal with Hg : matches false (Grp _) c _ |- _ =>
      apply name_group_inv in Hg; destruct Hg as (u & b & Eu & Hu & Hb) end.
    match goal with Hr : matches false (Rep _ _ _) _ c1 |- _ =>
      apply matches_split in Hr; destruct Hr as (wx & Ex & _) end.
    apply caps_word_head in Hu. destruct Hu as (x & u' & -> & Hx).
    exists x, (u' ++ b ++ wx ++ w). split; [| exact Hx].
    rewrite Eu, Ex, Ew. simpl. now rewrite !str_app_assoc.
Qed.

(** A match of the name pattern is three words in capitals at least. *)
Lemma name_re_inv p s c' :
  matches false name_re (p, s) c' ->
  exists w, s = w ++ snd c' /\ three_words w.
Proof.
  unfold name_re. intros Hm.
  apply matches_seq_inv in Hm. destruct Hm as [c3 [Hm Hlast]].
  apply matches_rep_pos_inv in Hm. destruct Hm as [c1 [Hg1 Hm]].
  apply matches_rep_pos_inv in Hm. destruct Hm as [c2 [Hg2 Hm]].
  apply name_group_inv in Hg1. destruct Hg1 as (u1 & b1 & E1 & Hu1 & Hb1).
  apply name_group_inv in Hg2. destruct Hg2 as (u2 & b2 & E2 & Hu2 & Hb2).
  destruct (name_tail_inv _ _ _ Hm Hlast) as (x & rest & E3 & Hx).
  simpl in E1. exists (u1 ++ b1 ++ u2 ++ b2 ++ String x rest). split.
  - rewrite E1, E2, E3. now rewrite !str_app_assoc.
  - exists u1, b1, u2, b2, x, rest. repeat split; apply Hu1 || apply Hb1 || apply Hu2 || apply Hb2 || exact Hx.
Qed.
End Patterns.

(** ** Patterns of a fixed shape

    A pattern that matches exactly the texts on which a test [shape]
    holds, and then always reads [n] characters. *)

Section FixedShape.
Context `{PyLib}.
Variable icase : bool.
Variable r : regex.
Variable shape : string -> bool.
Variable n : nat.

Hypothesis match_here_shape :
  forall p s,
    match_here icase r p s =
    if shape s then Some (str_last p (str_take n s), str_drop n s) else None.
Hypothesis shape_length : forall s, shape s = true -> (n <= String.length s)%nat.

Lemma matched_fixed s p' :
  (n <= String.length s)%nat -> matched s (p', str_drop n s) = str_take n s.
Proof.
  intros Hn. unfold matched. simpl. rewrite str_drop_length.
  f_equal. lia.
Qed.

Lemma search_from_fixed :
  forall i text p pos,
    shape (str_drop i text) = true ->
    (forall i', (i' < i)%nat -> shape (str_drop i' text) = false) ->
    search_from icase r pos p text = Some (pos + i, substr text i n).
Proof.
  induction i as [|i IH]; intros text p pos Hi Hbefore;
    rewrite search_from_unfold, match_here_shape.
  - change (str_drop 0 text) with text in Hi.
    rewrite Hi, matched_fixed by (apply shape_length; exact Hi).
    rewrite Nat.add_0_r. reflexivity.
  - pose proof (Hbefore 0 ltac:(lia)) as H0.
    change (str_drop 0 text) with text in H0. rewrite H0.
    destruct text as [|a text].
    + simpl in Hi. congruence.
    + simpl in Hi.
      rewrite (IH text (Some a) (S pos) Hi).
      * unfold substr. simpl. f_equal. f_equal. lia.
      * intros i' Hlt. apply (Hbefore (S i')). lia.
Qed.

(** [re.search] finds the first index at which the shape starts. *)
Lemma search_fixed_some text i :
  shape (str_drop i text) = true ->
  (forall i', (i' < i)%nat -> shape (str_drop i' text) = false) ->
  re_search icase r text = Some (i, substr text i n).
Proof. intros Hi Hb. unfold re_search. now rewrite (search_from_fixed i). Qed.

Lemma search_from_fixed_none :
  forall text p pos,
    (forall i, shape (str_drop i text) = false) ->
    search_from icase r pos p text = None.
Proof.
  induction text as [|a text IH]; intros p pos Hno;
    rewrite search_from_unfold, match_here_shape;
    pose proof (Hno 0) as H0; simpl in H0; rewrite H0; [reflexivity |].
  apply IH. intros i. apply (Hno (S i)).
Qed.

Lemma search_fixed_none text :
  (forall i, shape (str_drop i text) = false) ->
  re_search icase r text = None.
Proof. intros Hno. unfold re_search. now apply search_from_fixed_none. Qed.

Hypothesis min_len_pos : (0 < min_len r)%nat.

Lemma shape_reads s : shape s = true -> (0 < n)%nat.
Proof.
  intros Hs. pose proof (match_here_shape None s) as E. rewrite Hs in E.
  apply match_here_sound in E. apply matches_min_len in E. simpl in E.
  rewrite str_drop_length in E. apply shape_length in Hs. lia.
Qed.

Lemma findall_fixed_skip :
  forall i text p,
    (forall i', (i' < i)%nat -> shape (str_drop i' text) = false) ->
    (i <= String.length text)%nat ->
    findall icase r p text
    = findall icase r (str_last p (str_take i text)) (str_drop i text).
Proof.
  induction i as [|i IH]; intros text p Hno Hlen.
  - destruct text; reflexivity.
  - destruct text as [|a text]; [simpl in Hlen; lia |].
    pose proof (Hno 0 ltac:(lia)) as H0. simpl in H0.
    rewrite findall_skip by (rewrite match_here_shape, H0; reflexivity).
    simpl. apply IH.
    + intros i' Hlt. apply (Hno (S i')). lia.
    + simpl in Hlen. lia.
Qed.

Lemma findall_fixed_nil text p :
  (forall i, shape (str_drop i text) = false) ->
  findall icase r p text = [].
Proof.
  revert p. induction text as [|a text IH]; intros p Hno;
    pose proof (Hno 0) as H0; simpl in H0.
  - apply findall_end. rewrite match_here_shape, H0. reflexivity.
  - rewrite findall_skip by (rewrite match_here_shape, H0; reflexivity).
    apply IH. intros i. apply (Hno (S i)).
Qed.

(** The first text that [re.findall] returns starts at the first
    index at which the shape starts; the scan goes on [n] characters
    after it. *)
Lemma findall_fixed_cons text p i :
  shape (str_drop i text) = true ->
  (forall i', (i' < i)%nat -> shape (str_drop i' text) = false) ->
  exists p',
    findall icase r p text
    = substr text i n :: findall icase r p' (str_drop (i + n) text).
Proof.
  intros Hi Hno.
  assert (Hlen : (i <= String.length text)%nat).
  { pose proof (shape_reads _ Hi) as Hpos.
    apply shape_length in Hi. rewrite str_drop_length in Hi. lia. }
  rewrite (findall_fixed_skip i) by assumption.
  erewrite findall_take; [| rewrite match_here_shape, Hi; reflexivity | exact min_len_pos].
  simpl. rewrite matched_fixed by (apply shape_length; exact Hi).
  rewrite <- str_drop_add. eexists. reflexivity.
Qed.

(** Conversely, what [re.findall] returns first is where the shape
    first starts. *)
Lemma findall_fixed_inv :
  forall text p w l,
    findall icase r p text = w :: l ->
    exists i p',
      shape (str_drop i text) = true
      /\ (forall i', (i' < i)%nat -> shape (str_drop i' text) = false)
      /\ w = substr text i n
      /\ l = findall icase r p' (str_drop (i + n) text).
Proof.
  induction text as [|a text IH]; intros p w l E.
  - destruct (shape EmptyString) eqn:Hs.
    + destruct (findall_fixed_cons EmptyString p 0 Hs) as [p' E'].
      { intros i' Hlt. lia. }
      rewrite E in E'. injection E' as -> ->.
      exists 0, p'.
      split; [exact Hs |]. split; [intros; lia | split; reflexivity].
    + rewrite findall_end in E by (rewrite match_here_shape, Hs; reflexivity).
      discriminate.
  - destruct (shape (String a text)) eqn:Hs.
    + destruct (findall_fixed_cons (String a text) p 0 Hs) as [p' E'].
      { intros i' Hlt. lia. }
      rewrite E in E'. injection E' as -> ->.
      exists 0, p'.
      split; [exact Hs |]. split; [intros; lia | split; reflexivity].
    + rewrite findall_skip in E by (rewrite match_here_shape, Hs; reflexivity).
      apply IH in E. destruct E as (i & p' & Hi & Hno & -> & ->).
      exists (S i), p'.
      split; [exact Hi |]. split; [| split; reflexivity].
      intros [|i'] Hlt; [exact Hs | apply Hno; lia].
Qed.
End FixedShape.

(** ** Dates and passport numbers in a text *)

Section DatesAndPassports.
Context `{PyLib}.

Lemma match_here_date p s :
  match_here false date_re p s =
  if is_date s then Some (str_last p (str_take 10 s), str_drop 10 s) else None.
Proof.
  destruct (match_here false date_re p s) as [c|] eqn:E.
  - apply match_here_sound, date_re_inv in E. destruct E as [-> ->]. reflexivity.
  - destruct (is_date s) eqn:Hd; [| reflexivity].
    exfalso. apply (date_re_intro p) in Hd.
    exact (match_here_none _ _ _ _ _ E Hd).
Qed.

Lemma match_here_passport p s :
  match_here false passport_re p s =
  if is_passport s then Some (str_last p (str_take 8 s), str_drop 8 s) else None.
Proof.
  destruct (match_here false passport_re p s) as [c|] eqn:E.
  - apply match_here_sound, passport_re_inv in E. destruct E as [-> ->]. reflexivity.
  - destruct (is_passport s) eqn:Hd; [| reflexivity].
    exfalso. apply (passport_re_intro p) in Hd.
    exact (match_here_none _ _ _ _ _ E Hd).
Qed.

(** The passport rule finds the first place where Z and seven digits
    stand, and takes these eight characters. *)
Lemma re_search_passport_some text i :
  passport_at text i = true ->
  (forall i', (i' < i)%nat -> passport_at text i' = false) ->
  re_search false passport_re text = Some (i, substr text i 8).
Proof.
  apply (search_fixed_some false passport_re is_passport 8
           match_here_passport is_passport_length).
Qed.

Lemma re_search_passport_none text :
  (forall i, passport_at text i = false) ->
  re_search false passport_re text = None.
Proof.
  apply (search_fixed_none false passport_re is_passport 8 match_here_passport).
Qed.

Lemma min_len_date : (0 < min_len date_re)%nat.
Proof. simpl. lia. Qed.

(** The scan for dates returns first the date that starts first, then
    the first one that starts at least ten characters later. *)
Lemma re_findall_dates_two text i j :
  date_at text i = true ->
  (forall i', (i' < i)%nat -> date_at text i' = false) ->
  (i + 10 <= j)%nat ->
  date_at text j = true ->
  (forall j', (i + 10 <= j')%nat -> (j' < j)%nat -> date_at text j' = false) ->
  exists rest,
    re_findall false date_re text = substr text i 10 :: substr text j 10 :: rest.
Proof.
  intros Hi Hbi Hij Hj Hbj. rewrite re_findall_findall.
  destruct (findall_fixed_cons false date_re is_date 10 match_here_date
              is_date_length min_len_date text None i Hi Hbi) as [p1 E1].
  rewrite E1.
  assert (Ej : forall k, str_drop k (str_drop (i + 10) text) = str_drop (i + 10 + k) text)
    by (intros k; now rewrite <- str_drop_add).
  destruct (findall_fixed_cons false date_re is_date 10 match_here_date
              is_date_length min_len_date (str_drop (i + 10) text) p1 (j - (i + 10)))
    as [p2 E2].
  - rewrite Ej. replace (i + 10 + (j - (i + 10))) with j by lia. exact Hj.
  - intros k Hk. rewrite Ej. apply Hbj; lia.
  - rewrite E2. unfold substr at 2. rewrite Ej.
    replace (i + 10 + (j - (i + 10))) with j by lia.
    eexists. reflexivity.
Qed.

(** The scan returns fewer than two dates when no two dates stand ten
    characters apart or more. *)
Lemma re_findall_dates_fewer text :
  (forall i j, (i + 10 <= j)%nat -> date_at text i = true -> date_at text j = true -> False) ->
  (length (re_findall false date_re text) < 2)%nat.
Proof.
  intros Hno. rewrite re_findall_findall.
  destruct (findall false date_re None text) as [|w1 [|w2 l]] eqn:E; simpl; try lia.
  exfalso.
  apply (findall_fixed_inv false date_re is_date 10 match_here_date
           is_date_length min_len_date) in E.
  destruct E as (i & p1 & Hi & _ & _ & E).
  symmetry in E.
  apply (findall_fixed_inv false date_re is_date 10 match_here_date
           is_date_length min_len_date) in E.
  destruct E as (k & p2 & Hk & _ & _ & _).
  rewrite <- str_drop_add in Hk.
  apply (Hno i (i + 10 + k)); [lia | exact Hi | exact Hk].
Qed.
End DatesAndPassports.

(** ** The fallback extractor *)

Section FallbackTheory.
Context `{PyLib}.

(** [extract_using_regex] never raises, and returns the dictionary
    that binds each of the eight keys to what its rule found. *)
Lemma extract_using_regex_eq text :
  extract_using_regex text = ok (fallback_record text).
Proof.
  unfold extract_using_regex, fallback_record, profession_found.
  destruct (re_search true place_re text) as [m1|];
    destruct (re_search false uid_re text) as [m2|];
    destruct (re_search false passport_re text) as [m3|];
    destruct (re_search false name_re text) as [m4|];
    destruct (re_search false sponsor_re text) as [m5|];
    destruct (str_contains "PARTNER" text || str_contains "Partner" text);
    destruct (re_findall false date_re text) as [|d0 [|d1 ds]];
    reflexivity.
Qed.

Lemma fallback_lookup_name text :
  fallback_record text !! "name" = Some (found (re_search false name_re text)).
Proof. reflexivity. Qed.

Lemma fallback_lookup_uid text :
  fallback_record text !! "uid_no" = Some (found (re_search false uid_re text)).
Proof. reflexivity. Qed.

Lemma fallback_lookup_passport text :
  fallback_record text !! "passport_no"
  = Some (found (re_search false passport_re text)).
Proof. reflexivity. Qed.

Lemma fallback_lookup_profession text :
  fallback_record text !! "profession" = Some (profession_found text).
Proof. reflexivity. Qed.

Lemma fallback_lookup_sponsor text :
  fallback_record text !! "sponsor" = Some (found (re_search false sponsor_re text)).
Proof. reflexivity. Qed.

Lemma fallback_lookup_place text :
  fallback_record text !! "place_of_issue"
  = Some (found (re_search true place_re text)).
Proof. reflexivity. Qed.

Lemma fallback_lookup_issue text :
  fallback_record text !! "issue_date"
  = Some (fst (dates_found (re_findall false date_re text))).
Proof. reflexivity. Qed.

Lemma fallback_lookup_expiry text :
  fallback_record text !! "expiry_date"
  = Some (snd (dates_found (re_findall false date_re text))).
Proof. reflexivity. Qed.

(** The dictionary has the eight keys of the schema and no other. *)
Lemma fallback_keys text k :
  is_Some (fallback_record text !! k) <-> In k schema_keys.
Proof.
  unfold fallback_record, schema_keys. simpl.
  rewrite !lookup_insert_is_Some', lookup_empty.
  pose proof (@is_Some_None string) as Hnone. tauto.
Qed.
End FallbackTheory.

(** ** What the fallback extractor guarantees *)

Section FallbackClaims.
Context `{PyLib}.

Lemma found_nonempty icase r text :
  (0 < min_len r)%nat -> found (re_search icase r text) <> EmptyString.
Proof.
  intros Hpos. destruct (re_search icase r text) as [[i w]|] eqn:E; simpl.
  - apply re_search_some in E. destruct E as (pre & _ & _ & Hlen).
    apply str_nonempty_length. lia.
  - discriminate.
Qed.

Lemma dates_found_nonempty text :
  fst (dates_found (re_findall false date_re text)) <> EmptyString
  /\ snd (dates_found (re_findall false date_re text)) <> EmptyString.
Proof.
  unfold re_findall, findall.
  pose proof (findall_from_min_len false date_re
                (S (String.length text)) None text) as Hall.
  destruct (findall_from false date_re _ None text) as [|d0 [|d1 l]]; simpl;
    try (split; discriminate).
  split; apply str_nonempty_length.
  - specialize (Hall d0 (or_introl eq_refl)). simpl in Hall. lia.
  - specialize (Hall d1 (or_intror (or_introl eq_refl))). simpl in Hall. lia.
Qed.

(** Every value of the dictionary is a string that is not empty. *)
Lemma fallback_values_nonempty text k v :
  fallback_record text !! k = Some v -> v <> EmptyString.
Proof.
  intros Hk.
  assert (Hin : In k schema_keys) by (apply (proj1 (fallback_keys text k)); eauto).
  simpl in Hin.
  destruct Hin as [<-|[<-|[<-|[<-|[<-|[<-|[<-|[<-|[]]]]]]]]].
  - rewrite fallback_lookup_name in Hk. injection Hk as <-.
    apply found_nonempty. simpl. lia.
  - rewrite fallback_lookup_uid in Hk. injection Hk as <-.
    apply found_nonempty. simpl. lia.
  - rewrite fallback_lookup_passport in Hk. injection Hk as <-.
    apply found_nonempty. simpl. lia.
  - rewrite fallback_lookup_profession in Hk. injection Hk as <-.
    unfold profession_found. destruct (_ || _); discriminate.
  - rewrite fallback_lookup_sponsor in Hk. injection Hk as <-.
    apply found_nonempty. simpl. lia.
  - rewrite fallback_lookup_place in Hk. injection Hk as <-.
    apply found_nonempty. simpl. lia.
  - rewrite fallback_lookup_issue in Hk. injection Hk as <-.
    apply dates_found_nonempty.
  - rewrite fallback_lookup_expiry in Hk. injection Hk as <-.
    apply dates_found_nonempty.
Qed.

Lemma fallback_complete text : complete_record (of_record (fallback_record text)).
Proof.
  exists (JString <$> fallback_record text). split; [reflexivity |].
  intros k Hk. apply (proj2 (fallback_keys text k)) in Hk. destruct Hk as [s Hs].
  exists s. rewrite lookup_fmap, Hs. split; [reflexivity |].
  eapply fallback_values_nonempty; eauto.
Qed.
End FallbackClaims.

(** C6. [extract_using_regex] is total: on every text, the empty one
    included, it returns a dictionary and raises nothing; the dictionary
    has the eight keys of the schema and no other; a field whose rule
    finds nothing holds "Not Found"; and the function touches no state,
    so running it again gives the same dictionary. *)
Theorem extract_using_regex_total `{PyLib} (text : string) :
  exists d,
    extract_using_regex text = ok d
    /\ (forall k, is_Some (d !! k) <-> In k schema_keys)
    /\ (re_search true place_re text = None -> d !! "place_of_issue" = Some NOT_FOUND)
    /\ (re_search false uid_re text = None -> d !! "uid_no" = Some NOT_FOUND)
    /\ (re_search false passport_re text = None -> d !! "passport_no" = Some NOT_FOUND)
    /\ (re_search false name_re text = None -> d !! "name" = Some NOT_FOUND)
    /\ (re_search false sponsor_re text = None -> d !! "sponsor" = Some NOT_FOUND)
    /\ ((length (re_findall false date_re text) < 2)%nat ->
        d !! "issue_date" = Some NOT_FOUND /\ d !! "expiry_date" = Some NOT_FOUND)
    /\ (str_contains "PARTNER" text = false -> str_contains "Partner" text = false ->
        d !! "profession" = Some NOT_FOUND)
    /\ forall w : World,
         (let! a := lift (extract_using_regex text) in
          let! b := lift (extract_using_regex text) in
          mret (a, b))%M w = (w, ok (d, d)).
Proof.
  exists (fallback_record text).
  split; [apply extract_using_regex_eq |].
  split; [apply fallback_keys |].
  split; [intros E; now rewrite fallback_lookup_place, E |].
  split; [intros E; now rewrite fallback_lookup_uid, E |].
  split; [intros E; now rewrite fallback_lookup_passport, E |].
  split; [intros E; now rewrite fallback_lookup_name, E |].
  split; [intros E; now rewrite fallback_lookup_sponsor, E |].
  split.
  { intros Hlen. rewrite fallback_lookup_issue, fallback_lookup_expiry.
    destruct (re_findall false date_re text) as [|d0 [|d1 l]]; simpl in *;
      try (split; reflexivity). lia. }
  split.
  { intros E1 E2. rewrite fallback_lookup_profession. unfold profession_found.
    now rewrite E1, E2. }
  intros w. unfold mbind, lift, mret. now rewrite extract_using_regex_eq.
Qed.

(** The empty text: every field is "Not Found". *)
Lemma extract_using_regex_total_witness :
  exists d,
    extract_using_regex (H := ascii_lib) EmptyString = ok d
    /\ (forall k, In k schema_keys -> d !! k = Some NOT_FOUND).
Proof.
  destruct (extract_using_regex_total (H := ascii_lib) EmptyString)
    as (d & E & Hkeys & Hplace & Huid & Hpass & Hname & Hsponsor & Hdates & Hprof & _).
  exists d. split; [exact E |].
  intros k Hk. simpl in Hk.
  destruct Hk as [<-|[<-|[<-|[<-|[<-|[<-|[<-|[<-|[]]]]]]]]].
  - apply Hname. reflexivity.
  - apply Huid. reflexivity.
  - apply Hpass. reflexivity.
  - apply Hprof; reflexivity.
  - apply Hsponsor. reflexivity.
  - apply Hplace. reflexivity.
  - apply Hdates. simpl. lia.
  - apply Hdates. simpl. lia.
Defined.

(** C10. Without any disambiguation pass, the dictionary of
    [extract_using_regex] has a profession that is exactly "Partner" or
    "Not Found", hence one that contains neither "SERVICES CO" nor
    "DATA MANAGEMENT", and a sponsor that is "Not Found" or a piece of
    the text that begins with "MACKSOFY" and ends with "SERVICES CO.". *)
Theorem fallback_profession_sponsor `{PyLib} (text : string) :
  exists d,
    extract_using_regex text = ok d
    /\ (d !! "profession" = Some "Partner" \/ d !! "profession" = Some NOT_FOUND)
    /\ (forall p, d !! "profession" = Some p ->
                  str_contains "SERVICES CO" p = false
                  /\ str_contains "DATA MANAGEMENT" p = false)
    /\ (d !! "sponsor" = Some NOT_FOUND
        \/ exists pre mid post,
             text = pre ++ ("MACKSOFY" ++ mid ++ "SERVICES CO.") ++ post
             /\ d !! "sponsor" = Some ("MACKSOFY" ++ mid ++ "SERVICES CO.")).
Proof.
  exists (fallback_record text).
  split; [apply extract_using_regex_eq |].
  rewrite fallback_lookup_profession, fallback_lookup_sponsor.
  split; [| split].
  - unfold profession_found. destruct (_ || _); [left | right]; reflexivity.
  - intros p Hp. injection Hp as <-.
    unfold profession_found. destruct (_ || _); split; reflexivity.
  - destruct (re_search false sponsor_re text) as [[i w]|] eqn:E; [right | left; reflexivity].
    apply re_search_some in E.
    destruct E as (pre & _ & ((post & p' & Htext & Hm) & _) & _).
    apply sponsor_re_inv in Hm. destruct Hm as [mid Hmid].
    apply (str_app_inv_tail w ("MACKSOFY" ++ mid ++ "SERVICES CO.") post) in Hmid.
    subst w.
    exists pre, mid, post. split; [exact Htext | reflexivity].
Qed.

(** C9, as the code has it.  The passport number is the first place in
    the text where the letter Z and seven digits stand, whatever comes
    after the seventh digit: these eight characters are the value.  When
    there is no such place the field stays "Not Found". *)
Theorem passport_first_seven_digits `{PyLib} (text : string) :
  exists d,
    extract_using_regex text = ok d
    /\ (forall i,
          passport_at text i = true ->
          (forall i', (i' < i)%nat -> passport_at text i' = false) ->
          d !! "passport_no" = Some (substr text i 8))
    /\ ((forall i, passport_at text i = false) ->
        d !! "passport_no" = Some NOT_FOUND).
Proof.
  exists (fallback_record text).
  split; [apply extract_using_regex_eq |].
  rewrite fallback_lookup_passport. split.
  - intros i Hi Hbefore. now rewrite (re_search_passport_some text i Hi Hbefore).
  - intros Hno. now rewrite (re_search_passport_none text Hno).
Qed.

(** On "Passport Z12345678" the value is "Z1234567". *)
Lemma passport_first_seven_digits_witness :
  exists d,
    extract_using_regex (H := ascii_lib) long_passport = ok d
    /\ d !! "passport_no" = Some "Z1234567".
Proof.
  destruct (passport_first_seven_digits (H := ascii_lib) long_passport)
    as (d & E & Hsome & _).
  exists d. split; [exact E |].
  apply (Hsome 9); [reflexivity |].
  intros i' Hlt.
  do 9 (destruct i' as [|i']; [reflexivity |]). lia.
Defined.

(** C9, as the claim has it, fails: in "Passport Z12345678" the letter Z
    is followed by a run of eight digits, and this occurrence gives the
    passport number. *)
Lemma passport_long_run_taken :
  substr long_passport 9 9 = "Z12345678"
  /\ str_all (isdigit (PyLib := ascii_lib)) (substr long_passport 10 8) = true
  /\ exists d,
       extract_using_regex (H := ascii_lib) long_passport = ok d
       /\ d !! "passport_no" = Some "Z1234567".
Proof.
  split; [reflexivity |]. split; [reflexivity |].
  eexists. split; [apply extract_using_regex_eq | reflexivity].
Qed.

(** C7, as the code has it.  The scan for dates goes from left to right
    and resumes after each date it finds.  When a date starts at index
    [i] and none before, and a date starts at [j], at least ten
    characters later, and none between [i + 10] and [j], the issue date
    is the one at [i] and the expiry date the one at [j], whatever
    their values.  When no two dates stand ten characters apart or
    more, both fields stay "Not Found". *)
Theorem dates_first_two_apart `{PyLib} (text : string) :
  exists d,
    extract_using_regex text = ok d
    /\ (forall i j,
          date_at text i = true ->
          (forall i', (i' < i)%nat -> date_at text i' = false) ->
          (i + 10 <= j)%nat ->
          date_at text j = true ->
          (forall j', (i + 10 <= j')%nat -> (j' < j)%nat -> date_at text j' = false) ->
          d !! "issue_date" = Some (substr text i 10)
          /\ d !! "expiry_date" = Some (substr text j 10))
    /\ ((forall i j, (i + 10 <= j)%nat ->
                     date_at text i = true -> date_at text j = true -> False) ->
        d !! "issue_date" = Some NOT_FOUND
        /\ d !! "expiry_date" = Some NOT_FOUND).
Proof.
  exists (fallback_record text).
  split; [apply extract_using_regex_eq |].
  rewrite fallback_lookup_issue, fallback_lookup_expiry. split.
  - intros i j Hi Hbi Hij Hj Hbj.
    destruct (re_findall_dates_two text i j Hi Hbi Hij Hj Hbj) as [rest ->].
    split; reflexivity.
  - intros Hno. apply re_findall_dates_fewer in Hno.
    destruct (re_findall false date_re text) as [|d0 [|d1 l]]; simpl in *;
      try (split; reflexivity). lia.
Qed.

(** The example of the specification: "2020/01/15" then "2030/01/14". *)
Lemma dates_first_two_apart_witness :
  exists d,
    extract_using_regex (H := ascii_lib) two_dates = ok d
    /\ d !! "issue_date" = Some "2020/01/15"
    /\ d !! "expiry_date" = Some "2030/01/14".
Proof.
  destruct (dates_first_two_apart (H := ascii_lib) two_dates) as (d & E & Hsome & _).
  exists d. split; [exact E |].
  apply (Hsome 6 24).
  - reflexivity.
  - intros i' Hlt. do 6 (destruct i' as [|i']; [reflexivity |]). lia.
  - lia.
  - reflexivity.
  - intros j' Hlo Hhi.
    do 16 (destruct j' as [|j']; [lia |]).
    do 8 (destruct j' as [|j']; [reflexivity |]). lia.
Defined.

(** C7, as the claim has it, fails: "2020/01/1520/03/04" contains the
    two dates "2020/01/15" and "1520/03/04", which share two characters;
    the scan finds the first only, and both fields stay "Not Found". *)
Lemma dates_overlapping_not_found :
  date_at (H := ascii_lib) overlapping_dates 0 = true
  /\ substr overlapping_dates 0 10 = "2020/01/15"
  /\ date_at (H := ascii_lib) overlapping_dates 8 = true
  /\ substr overlapping_dates 8 10 = "1520/03/04"
  /\ exists d,
       extract_using_regex (H := ascii_lib) overlapping_dates = ok d
       /\ d !! "issue_date" = Some NOT_FOUND
       /\ d !! "expiry_date" = Some NOT_FOUND.
Proof.
  repeat (split; [reflexivity |]).
  eexists. split; [apply extract_using_regex_eq |]. split; reflexivity.
Qed.

(** ** The name rule *)

Lemma str_split_first (P : ascii -> bool) :
  forall a a' x r x' r',
    a ++ String x r = a' ++ String x' r' ->
    str_all P a = true -> str_all P a' = true ->
    P x = false -> P x' = false ->
    a = a' /\ String x r = String x' r'.
Proof.
  induction a as [|y a IH]; intros [|y' a'] x r x' r' E Ha Ha' Hx Hx'; simpl in *.
  - split; [reflexivity | exact E].
  - injection E as -> _. apply andb_prop in Ha'. destruct Ha' as [Hy _]. congruence.
  - injection E as -> _. apply andb_prop in Ha. destruct Ha as [Hy _]. congruence.
  - injection E as -> E.
    apply andb_prop in Ha, Ha'. destruct Ha as [_ Ha], Ha' as [_ Ha'].
    destruct (IH _ _ _ _ _ E Ha Ha' Hx Hx') as [-> E']. split; [reflexivity | exact E'].
Qed.

Section NameRule.
Context `{PyLib}.

(** What the name rule leaves in the record: "Not Found" when the
    pattern matches nowhere, else the leftmost match, which is three
    words in capitals at least. *)
Lemma name_found_cases text :
  (no_match false name_re text
   /\ found (re_search false name_re text) = NOT_FOUND)
  \/ (exists pre w,
        leftmost_match false name_re text pre w
        /\ three_words w
        /\ found (re_search false name_re text) = w).
Proof.
  destruct (re_search false name_re text) as [[i w]|] eqn:E.
  - right. apply re_search_some in E. destruct E as (pre & _ & Hleft & _).
    exists pre, w. split; [exact Hleft |]. split; [| reflexivity].
    destruct Hleft as [(post & p' & _ & Hm) _].
    apply name_re_inv in Hm. destruct Hm as (w' & Ew & Hw).
    apply (str_app_inv_tail w w' post) in Ew. now subst w'.
  - left. split; [apply re_search_none; exact E | reflexivity].
Qed.

(** No capital letter is a blank. *)
Hypothesis upper_not_space : forall c, is_upper c = true -> isspace c = false.

Lemma blanks_head b :
  blanks b -> exists x b', b = String x b' /\ isspace x = true /\ is_upper x = false.
Proof.
  intros [Hne Hall]. destruct b as [|x b']; [congruence |].
  simpl in Hall. apply andb_prop in Hall. destruct Hall as [Hx _].
  exists x, b'. repeat split; [exact Hx |].
  destruct (is_upper x) eqn:Hu; [| reflexivity].
  apply upper_not_space in Hu. congruence.
Qed.

Lemma caps_head_not_space u :
  caps_word u -> exists x u', u = String x u' /\ isspace x = false.
Proof.
  intros Hu. apply caps_word_head in Hu. destruct Hu as (x & u' & -> & Hx).
  exists x, u'. split; [reflexivity | now apply upper_not_space].
Qed.

(** Three words in capitals are never two words in capitals. *)
Lemma three_words_not_two w : three_words w -> two_words w -> False.
Proof.
  intros (u1 & b1 & u2 & b2 & c & rest & E3 & Hu1 & Hb1 & Hu2 & Hb2 & Hc)
         (v1 & b & v2 & E2 & Hv1 & Hb & Hv2).
  destruct (blanks_head _ Hb1) as (x1 & b1' & -> & _ & Hx1).
  destruct (blanks_head _ Hb) as (y & b' & -> & _ & Hy).
  rewrite E3 in E2. simpl in E2.
  destruct (str_split_first is_upper _ _ _ _ _ _ E2 (proj2 Hu1) (proj2 Hv1) Hx1 Hy)
    as [_ E].
  change (String x1 (b1' ++ u2 ++ b2 ++ String c rest))
    with (String x1 b1' ++ u2 ++ b2 ++ String c rest) in E.
  change (String y (b' ++ v2)) with (String y b' ++ v2) in E.
  destruct (caps_head_not_space _ Hu2) as (z2 & u2' & Eu2 & Hz2).
  destruct (caps_head_not_space _ Hv2) as (z & v2' & Ev2 & Hz).
  rewrite Eu2, Ev2 in E. simpl in E.
  change (String x1 (b1' ++ String z2 (u2' ++ b2 ++ String c rest)))
    with (String x1 b1' ++ String z2 (u2' ++ b2 ++ String c rest)) in E.
  change (String y (b' ++ String z v2')) with (String y b' ++ String z v2') in E.
  destruct (str_split_first isspace _ _ _ _ _ _ E (proj2 Hb1) (proj2 Hb) Hz2 Hz)
    as [_ E'].
  destruct Hv2 as [_ Hall]. rewrite Ev2, <- E' in Hall.
  change (String z2 (u2' ++ b2 ++ String c rest))
    with (String z2 u2' ++ b2 ++ String c rest) in Hall.
  rewrite !str_all_app in Hall.
  apply andb_prop in Hall. destruct Hall as [_ Hall].
  apply andb_prop in Hall. destruct Hall as [Hall _].
  destruct (blanks_head _ Hb2) as (x2 & b2' & -> & _ & Hx2).
  simpl in Hall. rewrite Hx2 in Hall. discriminate.
Qed.
End NameRule.

Lemma ascii_upper_not_space (c : ascii) :
  is_upper c = true -> isspace (PyLib := ascii_lib) c = false.
Proof. destruct c as [[] [] [] [] [] [] [] []]; vm_compute; congruence. Qed.

Lemma not_found_not_two_words : ~ two_words (H := ascii_lib) NOT_FOUND.
Proof.
  intros (u & b & v & E & Hu & Hb & Hv).
  destruct (caps_word_head _ Hu) as (x & u' & -> & Hx).
  injection E as <- E.
  destruct u' as [|y u'].
  - destruct (blanks_head (H := ascii_lib) ascii_upper_not_space _ Hb)
      as (z & b' & -> & Hz & _).
    injection E as <- _. vm_compute in Hz. discriminate.
  - injection E as <- _. destruct Hu as [_ Hall].
    vm_compute in Hall. discriminate.
Qed.

(** ** The match the name rule takes *)

Section SearchHere.
Context `{PyLib}.
Variable icase : bool.

(** [re.search] returns what the matcher finds at the leftmost start. *)
Lemma search_from_here r :
  forall s pos p i w,
    search_from icase r pos p s = Some (i, w) ->
    exists pre c,
      s = pre ++ w ++ snd c
      /\ i = pos + String.length pre
      /\ match_here icase r (str_last p pre) (w ++ snd c) = Some c
      /\ forall pre' s' c',
           s = pre' ++ s' -> (String.length pre' < String.length pre)%nat ->
           ~ matches icase r (str_last p pre', s') c'.
Proof.
  induction s as [|a s IH]; intros pos p i w E; rewrite search_from_unfold in E.
  - destruct (match_here icase r p EmptyString) as [c|] eqn:Em; [| discriminate].
    injection E as <- <-.
    pose proof (match_here_sound _ _ _ _ _ Em) as Hm.
    destruct (matched_spec _ _ _ _ _ Hm) as (E1 & _ & _).
    exists EmptyString, c.
    change (EmptyString ++ matched EmptyString c ++ snd c)
      with (matched EmptyString c ++ snd c).
    rewrite <- E1.
    repeat split; [simpl; lia | exact Em |].
    intros pre' s'' c' _ Hlt. simpl in Hlt. lia.
  - destruct (match_here icase r p (String a s)) as [c|] eqn:Em.
    + injection E as <- <-.
      pose proof (match_here_sound _ _ _ _ _ Em) as Hm.
      destruct (matched_spec _ _ _ _ _ Hm) as (E1 & _ & _).
      exists EmptyString, c.
      change (EmptyString ++ matched (String a s) c ++ snd c)
        with (matched (String a s) c ++ snd c).
      rewrite <- E1.
      repeat split; [simpl; lia | exact Em |].
      intros pre' s'' c' _ Hlt. simpl in Hlt. lia.
    + apply IH in E. destruct E as (pre & c & E1 & E2 & E3 & E5).
      exists (String a pre), c.
      repeat split; [simpl; now rewrite E1 | simpl; lia | exact E3 |].
      intros [|b pre'] s' c' Hs Hlt; simpl in *.
      * subst s'. apply match_here_none. exact Em.
      * injection Hs as <- Hs. apply (E5 pre' s' c' Hs). lia.
Qed.

(** The leftmost start and the longest match from it fix the match. *)
Lemma leftmost_longest_unique r text pre w pre2 w2 :
  leftmost_match icase r text pre w -> longest_at icase r text pre w ->
  leftmost_match icase r text pre2 w2 -> longest_at icase r text pre2 w2 ->
  pre2 = pre /\ w2 = w.
Proof.
  intros [(post & p' & E & Hm) Hleft] Hlong [(post2 & p2' & E2 & Hm2) Hleft2] Hlong2.
  assert (Hlen : String.length pre2 = String.length pre).
  { destruct (Nat.lt_trichotomy (String.length pre2) (String.length pre)) as [Hlt | [He | Hlt]].
    - exfalso. apply (Hleft pre2 Hlt). exists (w2 ++ post2), (p2', post2). split; assumption.
    - exact He.
    - exfalso. apply (Hleft2 pre Hlt). exists (w ++ post), (p', post). split; assumption. }
  assert (Hpre : pre2 = pre).
  { rewrite E in E2. symmetry in E2. exact (proj1 (str_app_inv_len _ _ _ _ E2 Hlen)). }
  subst pre2. split; [reflexivity |].
  pose proof (Hlong w2 post2 p2' E2 Hm2) as L1.
  pose proof (Hlong2 w post p' E Hm) as L2.
  rewrite E in E2. apply str_app_inv_head in E2.
  symmetry in E2.
  exact (proj1 (str_app_inv_len _ _ _ _ E2 ltac:(lia))).
Qed.
End SearchHere.

Section NameGreedy.
Context `{PyLib}.

(** No capital letter is a blank. *)
Hypothesis upper_not_space : forall c, is_upper c = true -> isspace c = false.

(** A stretch of capitals that stops before a character that is no
    capital, or at the end, is the longest one. *)
Lemma upper_prefix_le :
  forall u r u' r',
    u ++ r = u' ++ r' ->
    str_all is_upper u' = true ->
    opt_is is_upper (str_head r) = false ->
    (String.length u' <= String.length u)%nat.
Proof.
  induction u as [|a u IH]; intros r [|a' u'] r' E Hall Hr; simpl in *; try lia.
  - subst r. simpl in Hr. apply andb_prop in Hall. destruct Hall as [Ha _]. congruence.
  - injection E as _ E. apply andb_prop in Hall. destruct Hall as [_ Hall].
    specialize (IH _ _ _ E Hall Hr). lia.
Qed.

(** The greedy loop of [[A-Z]+], when whatever follows is accepted,
    stops only where the capitals stop. *)
Lemma upper_loop_greedy :
  forall fuel lo p s c,
    (lo <= 1)%nat ->
    (String.length s < fuel)%nat ->
    rep_loop (rx false (Range "A" "Z")) fuel lo None p s (fun p' s' => Some (p', s'))
    = Some c ->
    opt_is is_upper (str_head (snd c)) = false.
Proof.
  induction fuel as [|fuel IHf]; intros lo p s c Hlo Hfuel E; [lia |].
  simpl in E.
  destruct s as [|a s]; simpl in E.
  - destruct (lo =? 0)%nat; [| discriminate]. injection E as <-. reflexivity.
  - fold (is_upper a) in E.
    destruct (is_upper a) eqn:Ha.
    + replace (String.length s <? S (String.length s))%nat with true in E
        by (symmetry; apply Nat.ltb_lt; lia).
      simpl in Hfuel.
      destruct (rep_loop _ fuel (Nat.pred lo) None (Some a) s _) as [y|] eqn:Einner.
      * injection E as <-. eapply IHf; [| | exact Einner]; lia.
      * exfalso. destruct fuel as [|fuel]; [lia |].
        replace (Nat.pred lo) with 0 in Einner by lia.
        simpl in Einner.
        match type of Einner with
        | match ?e with _ => _ end = None => destruct e; discriminate
        end.
    + destruct (lo =? 0)%nat; [| discriminate]. injection E as <-. simpl. now rewrite Ha.
Qed.

(** [[A-Z]+] at the end of a pattern reads the capitals to their end. *)
Lemma plus_upper_greedy p s c :
  rx false (Plus (Range "A" "Z")) p s (fun p' s' => Some (p', s')) = Some c ->
  exists u, s = u ++ snd c /\ caps_word u
            /\ opt_is is_upper (str_head (snd c)) = false.
Proof.
  intros E.
  pose proof (upper_loop_greedy (S (String.length s)) 1 p s c (le_n 1)
                (Nat.lt_succ_diag_r _) E) as Hend.
  apply rx_sound in E. destruct E as ([p1 s1] & Hm & E). simpl in E. injection E as <-.
  apply plus_upper_inv in Hm. destruct Hm as (u & Eu & Hu).
  exists u. repeat split; [exact Eu | apply Hu | apply Hu | exact Hend].
Qed.

(** Rounds of [([A-Z]+\s+)] and the last word begin with a capital
    letter. *)
Lemma name_tail_head lo c c1 c' :
  matches false (Rep (Grp (Seq (Plus (Range "A" "Z")) (Plus Space))) lo None) c c1 ->
  matches false (Plus (Range "A" "Z")) c1 c' ->
  opt_is is_upper (str_head (snd c)) = true.
Proof.
  intros Hrep Hlast.
  apply plus_upper_inv in Hlast. destruct Hlast as (w & Ew & Hw).
  inversion Hrep; subst; simpl in *; try discriminate.
  - apply caps_word_head in Hw. destruct Hw as (x & w' & -> & Hx).
    rewrite Ew. exact Hx.
  - match goal with Hg : matches false (Grp _) c _ |- _ =>
      apply name_group_inv in Hg; destruct Hg as (u & b & Eu & Hu & Hb) end.
    apply caps_word_head in Hu. destruct Hu as (x & u' & -> & Hx).
    rewrite Eu. exact Hx.
Qed.

(** A round of [([A-Z]+\s+)] before a capital letter is one word and
    all the blanks after it: two such rounds from the same position end
    at the same position. *)
Lemma name_group_unique p s c2 c2' :
  matches false (Grp (Seq (Plus (Range "A" "Z")) (Plus Space))) (p, s) c2 ->
  matches false (Grp (Seq (Plus (Range "A" "Z")) (Plus Space))) (p, s) c2' ->
  opt_is is_upper (str_head (snd c2)) = true ->
  opt_is is_upper (str_head (snd c2')) = true ->
  c2' = c2.
Proof.
  intros Hm Hm' Hh Hh'.
  pose proof (matches_split _ _ _ _ Hm) as (w & Ew & Lw).
  pose proof (matches_split _ _ _ _ Hm') as (w' & Ew' & Lw').
  apply name_group_inv in Hm, Hm'.
  destruct Hm as (u & b & E & Hu & Hb), Hm' as (u' & b' & E' & Hu' & Hb').
  destruct c2 as [p2 s2], c2' as [p2' s2']. simpl in *.
  destruct (blanks_head upper_not_space _ Hb) as (x & b0 & -> & Hx & Hxu).
  destruct (blanks_head upper_not_space _ Hb') as (x' & b0' & -> & Hx' & Hxu').
  destruct s2 as [|y s2]; [discriminate |]. destruct s2' as [|y' s2']; [discriminate |].
  simpl in Hh, Hh'.
  assert (Hy : isspace y = false) by now apply upper_not_space.
  assert (Hy' : isspace y' = false) by now apply upper_not_space.
  rewrite E in E'. simpl in E'.
  destruct (str_split_first is_upper _ _ _ _ _ _ E' (proj2 Hu) (proj2 Hu') Hxu Hxu')
    as [-> E2].
  change (String x (b0 ++ String y s2)) with (String x b0 ++ String y s2) in E2.
  change (String x' (b0' ++ String y' s2')) with (String x' b0' ++ String y' s2') in E2.
  destruct (str_split_first isspace _ _ _ _ _ _ E2 (proj2 Hb) (proj2 Hb') Hy Hy')
    as [Eb E3].
  assert (w' = w).
  { rewrite Ew in Ew'. rewrite E3 in Ew'. symmetry. eapply str_app_inv_tail. exact Ew'. }
  subst w'. rewrite <- E3. congruence.
Qed.

(** One step of an open loop. *)
Lemma rep_loop_open {R}
    (body : option ascii -> string -> (option ascii -> string -> option R) -> option R)
    fuel lo p s k :
  rep_loop body (S fuel) lo None p s k =
  match body p s (fun p' s' =>
          if (String.length s' <? String.length s)%nat
          then rep_loop body fuel (Nat.pred lo) None p' s' k
          else None) with
  | Some x => Some x
  | None => if (lo =? 0)%nat then k p s else None
  end.
Proof. reflexivity. Qed.

(** A match of an open loop stops at once or goes through one round. *)
Lemma matches_rep_open_inv a lo c c1 :
  matches false (Rep a lo None) c c1 ->
  (lo = 0 /\ c1 = c)
  \/ exists c2,
       matches false a c c2
       /\ (String.length (snd c2) < String.length (snd c))%nat
       /\ matches false (Rep a (Nat.pred lo) None) c2 c1.
Proof.
  intros Hm. inversion Hm; subst; simpl in *; try discriminate; [left | right].
  - split; reflexivity.
  - eexists. repeat split; eassumption.
Qed.

(** The loop of the name pattern, with the last word after it, ends
    where the longest match of the rounds and the last word ends. *)
Lemma name_loop_longest :
  forall fuel lo p s c,
    (String.length s < fuel)%nat ->
    rep_loop (rx false (Grp (Seq (Plus (Range "A" "Z")) (Plus Space)))) fuel lo None p s
      (fun p1 s1 => rx false (Plus (Range "A" "Z")) p1 s1 (fun p' s' => Some (p', s')))
    = Some c ->
    forall c1 c',
      matches false (Rep (Grp (Seq (Plus (Range "A" "Z")) (Plus Space))) lo None) (p, s) c1 ->
      matches false (Plus (Range "A" "Z")) c1 c' ->
      (String.length (snd c) <= String.length (snd c'))%nat.
Proof.
  induction fuel as [|fuel IHf]; intros lo p s c Hfuel E c1 c' Hrep Hlast; [lia |].
  rewrite rep_loop_open in E.
  apply matches_rep_open_inv in Hrep.
  destruct (rx false (Grp _) p s _) as [x|] eqn:Emore.
  - injection E as ->.
    apply rx_sound in Emore. destruct Emore as ([p2 s2] & Hg & K). cbn [fst snd] in K.
    destruct (String.length s2 <? String.length s)%nat eqn:Hlt; [| discriminate].
    apply Nat.ltb_lt in Hlt.
    pose proof K as K'.
    apply (rep_loop_sound false _ (rx_sound false _)) in K'.
    destruct K' as ([p1s s1s] & Hrs & K'). cbn [fst snd] in K'.
    apply rx_sound in K'. destruct K' as ([p3 s3] & Hls & K'). cbn [fst snd] in K'.
    injection K' as <-.
    pose proof (name_tail_head _ _ _ _ Hrs Hls) as Hhead. cbn [snd] in Hhead.
    pose proof (matches_split _ _ _ _ Hrs) as (w1 & Ew1 & _).
    pose proof (matches_split _ _ _ _ Hls) as (w2 & Ew2 & _).
    cbn [fst snd] in Ew1, Ew2.
    assert (Hsuf : (String.length s3 <= String.length s2)%nat).
    { rewrite Ew1, Ew2, !str_length_app. lia. }
    cbn [snd].
    destruct Hrep as [[-> ->] | (c2 & Hg' & Hlt' & Hr')].
    + (* the rounds stop here: the last word is a part of the first word *)
      apply plus_upper_inv in Hlast. destruct Hlast as (u' & Eu' & Hu'). cbn [snd] in Eu'.
      apply name_group_inv in Hg. destruct Hg as (u & b & Eu & Hu & Hb). cbn [snd] in Eu.
      destruct (blanks_head upper_not_space _ Hb) as (x & b0 & Eb & _ & Hx).
      assert (Hle : (String.length u' <= String.length u)%nat).
      { apply (upper_prefix_le u (b ++ s2) u' (snd c')).
        - rewrite <- Eu. exact Eu'.
        - apply Hu'.
        - rewrite Eb. simpl. exact Hx. }
      apply (f_equal String.length) in Eu, Eu'.
      rewrite !str_length_app in Eu. rewrite !str_length_app in Eu'. lia.
    + (* one more round: the same round *)
      pose proof (name_tail_head _ _ _ _ Hr' Hlast) as Hhead'.
      pose proof (name_group_unique _ _ _ _ Hg Hg' Hhead Hhead') as Ec.
      rewrite Ec in Hr'.
      assert (Hf : (String.length s2 < fuel)%nat) by lia.
      exact (IHf _ _ _ _ Hf K _ _ Hr' Hlast).
  - destruct (lo =? 0)%nat eqn:Hlo; [| discriminate].
    apply Nat.eqb_eq in Hlo. subst lo.
    apply plus_upper_greedy in E. destruct E as (u & Eu & Hu & Hend).
    destruct Hrep as [[_ ->] | (c2 & Hg' & Hlt' & Hr')].
    + apply plus_upper_inv in Hlast. destruct Hlast as (u' & Eu' & Hu'). cbn [snd] in Eu'.
      assert (Hle : (String.length u' <= String.length u)%nat).
      { apply (upper_prefix_le u (snd c) u' (snd c')).
        - rewrite <- Eu. exact Eu'.
        - apply Hu'.
        - exact Hend. }
      apply (f_equal String.length) in Eu, Eu'.
      rewrite !str_length_app in Eu. rewrite !str_length_app in Eu'. lia.
    + (* a round that the matcher would have found *)
      exfalso.
      pose proof (rx_complete false _ _ _ Hg'
                    (fun p' s' =>
                       if (String.length s' <? String.length s)%nat
                       then rep_loop
                              (rx false (Grp (Seq (Plus (Range "A" "Z")) (Plus Space))))
                              fuel (Nat.pred 0) None p' s'
                              (fun p1 s1 =>
                                 rx false (Plus (Range "A" "Z")) p1 s1
                                   (fun p' s' => Some (p', s')))
                       else None)) as Hc.
      cbn [fst snd] in Hc. rewrite Emore in Hc.
      destruct Hc as [y Hy]; [| discriminate].
      destruct c2 as [p2 s2]. cbn [fst snd] in *.
      apply Nat.ltb_lt in Hlt' as Hb. rewrite Hb.
      apply (rep_loop_complete false _ (rx_complete false _) fuel (Nat.pred 0) None
               p2 s2 c1); [lia | exact Hr' |].
      apply (rx_complete false _ _ _ Hlast). eexists; reflexivity.
Qed.

(** At a position, the matcher takes the longest match of the name
    pattern. *)
Lemma name_match_longest p s c :
  match_here false name_re p s = Some c ->
  forall c', matches false name_re (p, s) c' ->
             (String.length (snd c) <= String.length (snd c'))%nat.
Proof.
  intros E c' Hm. unfold name_re in Hm.
  apply matches_seq_inv in Hm. destruct Hm as (c1 & Hrep & Hlast).
  exact (name_loop_longest (S (String.length s)) 2 p s c (Nat.lt_succ_diag_r _) E
           c1 c' Hrep Hlast).
Qed.

(** What the name rule leaves in the record: "Not Found" when the
    pattern matches nowhere, else the longest of the matches that
    start at the leftmost start, three words in capitals at least. *)
Lemma name_found_longest text :
  (no_match false name_re text
   /\ found (re_search false name_re text) = NOT_FOUND)
  \/ (exists pre w,
        leftmost_match false name_re text pre w
        /\ longest_at false name_re text pre w
        /\ three_words w
        /\ found (re_search false name_re text) = w).
Proof.
  destruct (re_search false name_re text) as [[i w]|] eqn:E.
  - right. apply search_from_here in E.
    destruct E as (pre & [p' post] & Et & _ & Ehere & Hleft). simpl in Et, Ehere.
    pose proof (match_here_sound _ _ _ _ _ Ehere) as Hm.
    exists pre, w. split; [| split; [| split; [| reflexivity]]].
    + split.
      * exists post, p'. split; assumption.
      * intros pre' Hlt (s' & c' & Hs & Hm'). eapply Hleft; eauto.
    + intros w' post' p'' Et' Hm'.
      rewrite Et in Et'. apply str_app_inv_head in Et'.
      rewrite <- Et' in Hm'.
      pose proof (name_match_longest _ _ _ Ehere _ Hm') as Hle. simpl in Hle.
      apply (f_equal String.length) in Et'. rewrite !str_length_app in Et'. lia.
    + apply name_re_inv in Hm. destruct Hm as (w' & Ew & Hw). simpl in Ew.
      apply (str_app_inv_tail w w' post) in Ew. now subst w'.
  - left. split; [apply re_search_none; exact E | reflexivity].
Qed.
End NameGreedy.

(** C8, as the code has it.  No capital letter is a blank, as in
    Python.  The name is the first match of the pattern: the match that
    starts at the leftmost start and is the longest of the matches that
    start there, which fixes it.  A match is three words in capitals at
    least: a word and blanks, a second word and blanks, and a capital
    letter after them.  When the pattern matches nowhere, and so when
    no part of the text is three words in capitals, the field stays
    "Not Found". *)
Theorem name_three_words `{PyLib} (text : string) :
  (forall c, is_upper c = true -> isspace c = false) ->
  exists d,
    extract_using_regex text = ok d
    /\ ((no_match false name_re text /\ d !! "name" = Some NOT_FOUND)
        \/ (exists pre w,
              leftmost_match false name_re text pre w
              /\ longest_at false name_re text pre w
              /\ three_words w
              /\ d !! "name" = Some w
              /\ forall pre2 w2,
                   leftmost_match false name_re text pre2 w2 ->
                   longest_at false name_re text pre2 w2 ->
                   pre2 = pre /\ w2 = w))
    /\ ((forall pre w post, text = pre ++ w ++ post -> ~ three_words w) ->
        d !! "name" = Some NOT_FOUND).
Proof.
  intros upper_not_space.
  exists (fallback_record text).
  split; [apply extract_using_regex_eq |].
  rewrite fallback_lookup_name.
  destruct (name_found_longest upper_not_space text)
    as [[Hno ->] | (pre & w & Hl & Hlong & Hw & ->)].
  - split; [| reflexivity]. left. split; [exact Hno | reflexivity].
  - split.
    + right. exists pre, w. repeat split; try apply Hl; try assumption;
        eapply (leftmost_longest_unique false name_re text pre w); eassumption.
    + intros Hnone. exfalso.
      destruct Hl as [(post & p' & E & _) _]. exact (Hnone pre w post E Hw).
Qed.

(** On "Name: JOHN ADAM SMITH" the name is "JOHN ADAM SMITH", the
    longest match from the leftmost start, and not "JOHN ADAM S", which
    the pattern matches from the same start. *)
Lemma name_three_words_witness :
  (forall c, is_upper c = true -> isspace (PyLib := ascii_lib) c = false)
  /\ exists d,
       extract_using_regex (H := ascii_lib) three_caps = ok d
       /\ d !! "name" = Some "JOHN ADAM SMITH"
       /\ exists pre,
            leftmost_match (H := ascii_lib) false name_re three_caps pre "JOHN ADAM SMITH"
            /\ longest_at (H := ascii_lib) false name_re three_caps pre "JOHN ADAM SMITH".
Proof.
  split; [exact ascii_upper_not_space |].
  destruct (name_three_words (H := ascii_lib) three_caps ascii_upper_not_space)
    as (d & E & [[_ Hnf] | (pre & w & Hl & Hlong & _ & Hname & _)] & _);
    rewrite extract_using_regex_eq in E; injection E as <-.
  - exfalso. vm_compute in Hnf. discriminate.
  - exists (fallback_record three_caps).
    split; [reflexivity |]. split; [reflexivity |].
    vm_compute in Hname. injection Hname as <-.
    exists pre. split; assumption.
Defined.

(** C8, as the claim has it, fails: on no text is the name a match of
    two words in capitals. *)
Lemma name_never_two_words :
  ~ exists text d w,
      extract_using_regex (H := ascii_lib) text = ok d
      /\ d !! "name" = Some w
      /\ two_words (H := ascii_lib) w.
Proof.
  intros (text & d & w & E & Hname & Htwo).
  rewrite extract_using_regex_eq in E. injection E as <-.
  rewrite fallback_lookup_name in Hname. injection Hname as Hname.
  destruct (name_found_cases (H := ascii_lib) text)
    as [[_ Hnf] | (pre & w' & _ & Hthree & Hw)].
  - rewrite Hnf in Hname. subst w. exact (not_found_not_two_words Htwo).
  - rewrite Hw in Hname. subst w'.
    exact (three_words_not_two (H := ascii_lib) ascii_upper_not_space w Hthree Htwo).
Qed.

(** Two words in capitals leave the name at "Not Found"; three give it. *)
Example name_two_words_example :
  extract_using_regex (H := ascii_lib) "JOHN SMITH" = ok (fallback_record "JOHN SMITH")
  /\ fallback_record (H := ascii_lib) "JOHN SMITH" !! "name" = Some NOT_FOUND
  /\ fallback_record (H := ascii_lib) three_caps !! "name" = Some "JOHN ADAM SMITH".
Proof. split; [apply extract_using_regex_eq |]. split; reflexivity. Qed.

(** ** The post-processing of a parsed answer *)

Section PostProcessTheory.
Context `{PyLib}.

Lemma assign_pair_object m a b :
  assign_pair (JObject m) a b
  = ok (JObject (<["sponsor" := JString b]> (<["profession" := JString a]> m))).
Proof. reflexivity. Qed.

Lemma assign_pair_not_object v a b :
  (forall m, v <> JObject m) -> exists e, assign_pair v a b = raise e.
Proof.
  intros Hv. destruct v; try (eexists; reflexivity).
  exfalso. eapply Hv. reflexivity.
Qed.

(** Assigning the same pair twice is assigning it once. *)
Lemma assign_pair_twice v a b :
  (let! v' := assign_pair v a b in assign_pair v' a b)%result = assign_pair v a b.
Proof.
  destruct v; try reflexivity.
  rewrite assign_pair_object. simpl. rewrite assign_pair_object.
  do 2 f_equal.
  rewrite (insert_insert_ne _ "profession" "sponsor") by discriminate.
  now rewrite !insert_insert_eq.
Qed.

Lemma rbind_ok {A} (r : result A) : (let! x := r in ok x)%result = r.
Proof. destruct r; reflexivity. Qed.

(** The two [if] statements of the code give what an [if] / [elif]
    gives. *)
Lemma post_process_eq v : post_process v = post_process_first_match v.
Proof.
  unfold post_process, post_process_first_match.
  destruct (py_in "profession" v) as [e|[|]]; simpl; try reflexivity.
  destruct (py_in "sponsor" v) as [e|[|]]; simpl; try reflexivity.
  destruct (py_getitem v "profession") as [e|p]; simpl; try reflexivity.
  destruct (py_upper p) as [e|pu]; simpl; try reflexivity.
  destruct (py_getitem v "sponsor") as [e|s]; simpl; try reflexivity.
  destruct (py_upper s) as [e|su]; simpl; try reflexivity.
  destruct (is_company pu), (is_partner (str_strip su)); simpl; try reflexivity.
  - pose proof (assign_pair_twice v su pu) as Htwice.
    destruct (assign_pair v su pu) as [e|v'] eqn:E; simpl in *; [reflexivity |].
    rewrite rbind_ok. exact Htwice.
  - destruct (assign_pair v su pu); reflexivity.
  - apply rbind_ok.
Qed.

(** When the post-processing of an object returns, it returns an
    object with the same keys. *)
Lemma post_process_keys m v :
  post_process (JObject m) = ok v ->
  exists m', v = JObject m' /\ forall k, is_Some (m' !! k) <-> is_Some (m !! k).
Proof.
  rewrite post_process_eq. unfold post_process_first_match. simpl.
  destruct (bool_decide (is_Some (m !! "profession"))) eqn:Hp; simpl.
  2: { intros E. injection E as <-. exists m. split; [reflexivity | tauto]. }
  destruct (bool_decide (is_Some (m !! "sponsor"))) eqn:Hs; simpl.
  2: { intros E. injection E as <-. exists m. split; [reflexivity | tauto]. }
  apply bool_decide_eq_true in Hp, Hs.
  assert (Hkeys : forall a b k,
    is_Some ((<["sponsor" := JString b]> (<["profession" := JString a]> m)) !! k)
    <-> is_Some (m !! k)).
  { intros a b k. rewrite !lookup_insert_is_Some'.
    split; [intros [<-|[<-|Hk]]; assumption | tauto]. }
  destruct Hp as [p Ep], Hs as [s Es]. rewrite Ep, Es. simpl.
  destruct (py_upper p) as [e|pu]; simpl; [discriminate |].
  destruct (py_upper s) as [e|su]; simpl; [discriminate |].
  destruct (is_company pu); [| destruct (is_partner (str_strip su))];
    intros E; injection E as <-; eexists; split; try reflexivity;
    try apply Hkeys; tauto.
Qed.
End PostProcessTheory.

(** C5. The pass behaves as if at most one rule fired, the first that
    matches: on every parsed value it returns what the pass with the
    second rule under an [else] returns.  When both conditions hold the
    record is swapped once, the company under [sponsor] and the job
    title under [profession], and does not go back to the arrangement
    it had. *)
Theorem post_process_first_match_wins `{PyLib} :
  (forall v, post_process v = post_process_first_match v)
  /\ (forall m p s,
        m !! "profession" = Some (JString p) ->
        m !! "sponsor" = Some (JString s) ->
        is_company (str_upper p) = true ->
        is_partner (str_strip (str_upper s)) = true ->
        post_process (JObject m)
        = ok (JObject (<["sponsor" := JString (str_upper p)]>
                        (<["profession" := JString (str_upper s)]> m)))).
Proof.
  split; [apply post_process_eq |].
  intros m p s Ep Es Hc Hp.
  rewrite post_process_eq. unfold post_process_first_match. simpl.
  rewrite Ep, Es. simpl. rewrite Hc. reflexivity.
Qed.

(** A record on which both rules fire. *)
Lemma post_process_first_match_wins_witness :
  post_process (H := ascii_lib)
    (JObject (<["profession" := JString company]> {["sponsor" := JString " partner "]}))
  = ok (JObject (<["profession" := JString " PARTNER "]>
                  {["sponsor" := JString company]})).
Proof.
  etransitivity.
  - apply (proj2 (post_process_first_match_wins (H := ascii_lib))
             (<["profession" := JString company]> {["sponsor" := JString " partner "]})
             company " partner "); vm_compute; reflexivity.
  - vm_compute. reflexivity.
Defined.

(** ** The orchestrator and the coordinator *)

Section PipelineTheory.
Context `{PyLib}.
Variable svc : Services.

(** [process_and_query] once the model has answered [raw]. *)
Lemma process_and_query_answer text w raw :
  chain_run svc text = ok raw ->
  process_and_query svc text w =
  (log (EvModel text) w,
   match json_loads raw with
   | Some v =>
       match post_process v with
       | inr v' => ok v'
       | inl e => raise (Exception_ "Error in LLM processing: " e)
       end
   | None => ok (of_record (fallback_record raw))
   end).
Proof.
  intros Hraw.
  unfold process_and_query, try_except, mbind, run_chain, lift, mret, mraise.
  rewrite Hraw. unfold ok at 1.
  destruct (json_loads raw) as [v|].
  - destruct (post_process v); reflexivity.
  - rewrite extract_using_regex_eq. reflexivity.
Qed.

(** [process_and_query] when the call of the model fails. *)
Lemma process_and_query_model_error text w e :
  chain_run svc text = raise e ->
  process_and_query svc text w =
  (log (EvModel text) w, raise (Exception_ "Error in LLM processing: " e)).
Proof.
  intros Hraw.
  unfold process_and_query, try_except, mbind, run_chain, lift, mret, mraise.
  rewrite Hraw. reflexivity.
Qed.

(** [process_and_query] leaves the document store as it is. *)
Lemma process_and_query_store text w :
  s3 (fst (process_and_query svc text w)) = s3 w.
Proof.
  destruct (chain_run svc text) as [e|raw] eqn:E.
  - now rewrite (process_and_query_model_error text w e E).
  - now rewrite (process_and_query_answer text w raw E).
Qed.

(** When the upload fails nothing is stored. *)
Lemma extract_upload_fails image_path bucket_name w :
  local_file svc image_path = None ->
  fst (extract_text_from_image svc image_path bucket_name w) = w.
Proof.
  intros Hfile.
  unfold extract_text_from_image, upload_to_s3, try_except, mbind, s3_upload_file, mraise.
  rewrite Hfile. reflexivity.
Qed.

(** [extract_text_from_image] once the upload has succeeded, step by
    step: the deletion comes last and only on the path without
    exception, and an error of the deletion is raised in place of the
    record. *)
Lemma extract_run image_path bucket_name w bytes :
  local_file svc image_path = Some bytes ->
  extract_text_from_image svc image_path bucket_name w =
  let key := "emirates_ids/" ++ basename image_path in
  let w1 := {| s3 := <[(bucket_name, key) := bytes]> (s3 w);
               trace := trace w ++ [EvUpload bucket_name key] |} in
  let w2 := log (EvDetect bucket_name key) w1 in
  match ocr svc bytes with
  | inl e => (w2, raise (Exception_ "Error processing Emirates ID: " e))
  | inr response =>
      match process_and_query svc
              (str_join " " (Text <$> List.filter is_line response)) w2 with
      | (w3, inl e) => (w3, raise (Exception_ "Error processing Emirates ID: " e))
      | (w3, inr extracted_info) =>
          match delete_outcome svc bucket_name key with
          | inr _ =>
              ({| s3 := delete (bucket_name, key) (s3 w3);
                  trace := trace w3 ++ [EvDelete bucket_name key] |},
               ok extracted_info)
          | inl e =>
              (log (EvDelete bucket_name key) w3,
               raise (Exception_ "Error processing Emirates ID: " e))
          end
      end
  end.
Proof.
  intros Hfile.
  unfold extract_text_from_image, upload_to_s3, try_except, mbind,
    s3_upload_file, detect_document_text, s3_delete_object, mret, mraise.
  rewrite Hfile. cbv zeta. cbn [s3 trace ok].
  rewrite lookup_insert_eq.
  destruct (ocr svc bytes) as [e|response]; [reflexivity |].
  unfold ok.
  destruct (process_and_query svc _ _) as [w3 [e|v]]; [reflexivity |].
  destruct (delete_outcome svc _ _) as [e|u]; reflexivity.
Qed.

(** When the operation returns a record, the object is gone. *)
Lemma extract_success_deletes image_path bucket_name w v :
  snd (extract_text_from_image svc image_path bucket_name w) = ok v ->
  s3 (fst (extract_text_from_image svc image_path bucket_name w))
    !! s3_key image_path bucket_name = None.
Proof.
  destruct (local_file svc image_path) as [bytes|] eqn:Hfile.
  - rewrite (extract_run image_path bucket_name w bytes Hfile). cbv zeta.
    destruct (ocr svc bytes) as [e|response]; [discriminate |].
    destruct (process_and_query svc _ _) as [w3 [e|v']]; [discriminate |].
    destruct (delete_outcome svc _ _) as [e|u]; [discriminate |].
    intros _. cbn [fst s3]. apply lookup_delete_eq.
  - unfold extract_text_from_image, upload_to_s3, try_except, mbind,
      s3_upload_file, mraise.
    rewrite Hfile. discriminate.
Qed.

(** When the upload succeeds and a later step fails, the object stays
    in the store: the deletion is not reached, or it is refused. *)
Lemma extract_failure_keeps image_path bucket_name w bytes e :
  local_file svc image_path = Some bytes ->
  snd (extract_text_from_image svc image_path bucket_name w) = raise e ->
  s3 (fst (extract_text_from_image svc image_path bucket_name w))
    !! s3_key image_path bucket_name = Some bytes.
Proof.
  intros Hfile.
  rewrite (extract_run image_path bucket_name w bytes Hfile). cbv zeta.
  destruct (ocr svc bytes) as [e'|response].
  - intros _. cbn [fst s3 log]. apply lookup_insert_eq.
  - match goal with |- context [process_and_query svc ?t ?w1] =>
      pose proof (process_and_query_store t w1) as Hstore;
      destruct (process_and_query svc t w1) as [w3 [e'|v']] end.
    + intros _. cbn [fst] in *. rewrite Hstore. cbn [s3 log]. apply lookup_insert_eq.
    + destruct (delete_outcome svc _ _) as [e'|u]; [| discriminate].
      intros _. cbn [fst] in *. cbn [s3 log]. rewrite Hstore.
      cbn [s3 log]. apply lookup_insert_eq.
Qed.
End PipelineTheory.




(** C1, as the code has it.  When the answer of the model does not
    parse, the record comes from the fallback and has all eight keys,
    each bound to "Not Found" or to a string that is not empty.  When
    the answer parses as a JSON object and the post-processing returns,
    the record has the keys of that object, no more and no fewer: a key
    the model left out is missing.  The callers read each field with
    [get] and the default "Not Found". *)
Theorem record_keys_by_path `{PyLib} (svc : Services) (text : string) (w : World)
    (raw : string) :
  chain_run svc text = ok raw ->
  (json_loads raw = None ->
   exists v, snd (process_and_query svc text w) = ok v /\ complete_record v)
  /\ (forall m v,
        json_loads raw = Some (JObject m) ->
        snd (process_and_query svc text w) = ok v ->
        exists m',
          v = JObject m'
          /\ (forall k, is_Some (m' !! k) <-> is_Some (m !! k))
          /\ (forall k, py_get_default v k = ok (default (JString NOT_FOUND) (m' !! k)))).
Proof.
  intros Hraw. rewrite (process_and_query_answer svc text w raw Hraw). split.
  - intros ->. eexists. split; [reflexivity | apply fallback_complete].
  - intros m v -> Hv. cbn [snd] in Hv.
    destruct (post_process (JObject m)) as [e|v'] eqn:Hpost; [discriminate |].
    injection Hv as <-.
    destruct (post_process_keys m v' Hpost) as (m' & -> & Hkeys).
    exists m'. split; [reflexivity |]. split; [exact Hkeys | reflexivity].
Qed.

(** An answer in prose gives a complete record. *)
Lemma record_keys_by_path_witness :
  chain_run (svc_answering (ok answer_prose)) "JOHN" = ok answer_prose
  /\ exists v,
       snd (process_and_query (H := ascii_lib) (svc_answering (ok answer_prose)) "JOHN" w0)
       = ok v
       /\ complete_record v.
Proof.
  split; [reflexivity |].
  apply (proj1 (record_keys_by_path (H := ascii_lib)
                  (svc_answering (ok answer_prose)) "JOHN" w0 answer_prose eq_refl)).
  reflexivity.
Defined.

(** C1, as the claim has it, fails: the model answers with a JSON object
    that has the key [name] only, and the operation returns this object,
    in which [uid_no] and six other keys are missing. *)
Lemma record_misses_omitted_keys :
  AsciiLib.loads answer_name_only = Some (JObject {["name" := JString "JOHN ADAM SMITH"]})
  /\ snd (extract_text_from_image (H := ascii_lib) (svc_answering (ok answer_name_only))
            card_path "id-bucket" w0)
     = ok (JObject {["name" := JString "JOHN ADAM SMITH"]})
  /\ ~ complete_record (JObject {["name" := JString "JOHN ADAM SMITH"]}).
Proof.
  split; [vm_compute; reflexivity |]. split; [vm_compute; reflexivity |].
  intros (m & E & Hall). injection E as <-.
  destruct (Hall "uid_no") as (s & Hs & _); [simpl; tauto |].
  vm_compute in Hs. discriminate.
Qed.

(** C2.  The stored object is deleted on the path without exception
    only.  Here the upload succeeds and the OCR service fails: the
    operation raises, no deletion is in the trace, and the object is
    still in the store under the key of the invocation.  The same holds
    when the model fails. *)
Theorem cleanup_skipped_on_failure :
  (let r := extract_text_from_image (H := ascii_lib) svc_ocr_down
              card_path "id-bucket" w0 in
   snd r = raise (Exception_ "Error processing Emirates ID: "
                    (ServiceError "Textract is unavailable"))
   /\ s3 (fst r) !! card_key = Some card_bytes
   /\ trace (fst r) = [EvUpload "id-bucket" "emirates_ids/card.png";
                       EvDetect "id-bucket" "emirates_ids/card.png"])
  /\ (let r := extract_text_from_image (H := ascii_lib)
                 (svc_answering (raise (ServiceError "quota")))
                 card_path "id-bucket" w0 in
      snd r = raise (Exception_ "Error processing Emirates ID: "
                       (Exception_ "Error in LLM processing: " (ServiceError "quota")))
      /\ s3 (fst r) !! card_key = Some card_bytes
      /\ trace (fst r) = [EvUpload "id-bucket" "emirates_ids/card.png";
                          EvDetect "id-bucket" "emirates_ids/card.png";
                          EvModel "JOHN ADAM SMITH Dubai"]).
Proof. split; cbv zeta; (split; [| split]); vm_compute; reflexivity. Qed.

(** When the operation returns, the object has been deleted. *)
Example cleanup_on_success :
  let r := extract_text_from_image (H := ascii_lib) (svc_answering (ok answer_prose))
             card_path "id-bucket" w0 in
  s3 (fst r) !! card_key = None
  /\ trace (fst r) = [EvUpload "id-bucket" "emirates_ids/card.png";
                      EvDetect "id-bucket" "emirates_ids/card.png";
                      EvModel "JOHN ADAM SMITH Dubai";
                      EvDelete "id-bucket" "emirates_ids/card.png"].
Proof. cbv zeta. split; vm_compute; reflexivity. Qed.

(** C4.  The pass does not keep the casing: it stores the upper-cased
    copies it made for the comparisons.  On the record of the
    specification's example, profession the company and sponsor
    "Partner", the profession becomes "PARTNER". *)
Theorem disambiguation_stores_upper_case :
  AsciiLib.loads answer_swapped
  = Some (JObject (<["profession" := JString company]> {["sponsor" := JString "Partner"]}))
  /\ snd (process_and_query (H := ascii_lib) (svc_answering (ok answer_swapped))
            "JOHN ADAM SMITH Dubai" w0)
     = ok (JObject (<["profession" := JString "PARTNER"]> {["sponsor" := JString company]}))
  /\ JString "PARTNER" <> JString "Partner".
Proof.
  split; [vm_compute; reflexivity |]. split; [vm_compute; reflexivity |].
  discriminate.
Qed.

(** * Further properties of the code *)

(** ** The place rule *)

Section PlaceRule.
Context `{PyLib}.

Lemma matches_alts_inv icase d rs :
  forall c c',
    matches icase (Alts d rs) c c' ->
    exists r, In r (d :: rs) /\ matches icase r c c'.
Proof.
  revert d. induction rs as [|r rs IH]; intros d c c' Hm; simpl in Hm.
  - exists d. split; [left; reflexivity | exact Hm].
  - inversion Hm; subst; simpl in *; try discriminate.
    + exists d. split; [left; reflexivity | assumption].
    + match goal with Hr : matches icase (Alts r rs) c c' |- _ =>
        apply IH in Hr; destruct Hr as (r' & Hin & Hr') end.
      exists r'. split; [right; exact Hin | exact Hr'].
Qed.

(** Under [re.IGNORECASE] a literal string matches the texts that spell
    it up to case. *)
Lemma matches_str_icase_inv lit :
  lit <> EmptyString ->
  forall p s c',
    matches true (Str lit) (p, s) c' ->
    exists w, s = w ++ snd c' /\ ieq_str lit w = true.
Proof.
  induction lit as [|d lit IH]; intros Hne p s c' Hm; [congruence |].
  destruct lit as [|e lit].
  - simpl in Hm. apply matches_atom_inv in Hm; [| reflexivity].
    destruct Hm as (x & -> & _ & Hx). simpl in Hx.
    exists (String x EmptyString). simpl. rewrite Hx. split; reflexivity.
  - change (Str (String d (String e lit))) with (Seq (Lit d) (Str (String e lit))) in Hm.
    apply matches_seq_inv in Hm. destruct Hm as [[p1 s1] [Hm1 Hm2]].
    apply matches_atom_inv in Hm1; [| reflexivity].
    destruct Hm1 as (x & -> & _ & Hx). simpl in Hx.
    apply IH in Hm2; [| discriminate]. destruct Hm2 as (w & Ew & Hw).
    simpl in Ew. exists (String x w).
    split; [simpl; now rewrite Ew |].
    change (ieq_str (String d (String e lit)) (String x w))
      with (ieq d x && ieq_str (String e lit) w).
    now rewrite Hx, Hw.
Qed.

Lemma place_re_inv p s c' :
  matches true place_re (p, s) c' ->
  exists city w, In city cities /\ s = w ++ snd c' /\ ieq_str city w = true.
Proof.
  unfold place_re. intros Hm. apply matches_grp_inv in Hm.
  apply matches_alts_inv in Hm. destruct Hm as (r & Hin & Hm).
  assert (Hcity : exists city, In city cities /\ city <> EmptyString /\ r = Str city).
  { simpl in Hin.
    destruct Hin as [<-|[<-|[<-|[<-|[<-|[<-|[<-|[]]]]]]]].
    - exists "Dubai". simpl. repeat split; [tauto | discriminate].
    - exists "Abu Dhabi". simpl. repeat split; [tauto | discriminate].
    - exists "Sharjah". simpl. repeat split; [tauto | discriminate].
    - exists "Ajman". simpl. repeat split; [tauto | discriminate].
    - exists "Umm Al Quwain". simpl. repeat split; [tauto | discriminate].
    - exists "Ras Al Khaimah". simpl. repeat split; [tauto | discriminate].
    - exists "Fujairah". simpl. repeat split; [tauto | discriminate]. }
  destruct Hcity as (city & Hc & Hne & ->).
  apply (matches_str_icase_inv city Hne) in Hm. destruct Hm as (w & Ew & Hw).
  exists city, w. repeat split; assumption.
Qed.
End PlaceRule.

(** X1. The place of issue is "Not Found", when no city name stands in
    the text, or the leftmost piece of the text that spells one of the
    seven city names up to the case of its letters; the value keeps the
    casing of the text, not that of the pattern. *)
Theorem place_is_city_of_text `{PyLib} (text : string) :
  exists d,
    extract_using_regex text = ok d
    /\ ((no_match true place_re text /\ d !! "place_of_issue" = Some NOT_FOUND)
        \/ exists pre w city,
             leftmost_match true place_re text pre w
             /\ In city cities
             /\ ieq_str city w = true
             /\ d !! "place_of_issue" = Some w).
Proof.
  exists (fallback_record text).
  split; [apply extract_using_regex_eq |].
  rewrite fallback_lookup_place.
  destruct (re_search true place_re text) as [[i w]|] eqn:E.
  - right. apply re_search_some in E. destruct E as (pre & _ & Hleft & _).
    destruct Hleft as [(post & p' & Htext & Hm) Hfirst].
    pose proof Hm as Hm'.
    apply place_re_inv in Hm'. destruct Hm' as (city & w' & Hcity & Ew & Hw).
    apply (str_app_inv_tail w w' post) in Ew. subst w'.
    exists pre, w, city. repeat split; try assumption.
    exists post, p'. split; assumption.
  - left. split; [apply re_search_none; exact E | reflexivity].
Qed.

(** ** The number rule *)

Section UidRule.
Context `{PyLib}.

(** [a{lo,hi}] for a one-character pattern reads between [lo] and [hi]
    characters that pass its test. *)
Lemma matches_rep_bounded_inv icase a :
  is_atom a = true ->
  forall r c c',
    matches icase r c c' ->
    forall lo hi, r = Rep a lo (Some hi) ->
    exists w, snd c = w ++ snd c'
              /\ (lo <= String.length w)%nat /\ (String.length w <= hi)%nat
              /\ str_all (char_test icase a) w = true
              /\ fst c' = str_last (fst c) w.
Proof.
  intros Ha r c c' Hm.
  induction Hm as [r c p s T|p s B|x y c1 c2 c3 _ _ _ _
                  |x y c1 c2 _ _|x y c1 c2 _ _|x hi' c
                  |x lo' hi' c1 c2 c3 Hopen Hbody _ Hlt Hrest IH|x c1 c2 _ _];
    intros lo hi E; try discriminate.
  - subst r. simpl in T. discriminate.
  - injection E as -> <- ->. exists EmptyString. simpl. repeat split; lia.
  - injection E as -> -> ->.
    destruct hi as [|hi]; [discriminate |].
    destruct c1 as [p1 s1]. apply (matches_atom_inv _ _ _ _ _ Ha) in Hbody.
    destruct Hbody as (ch & -> & Hp & Hch).
    destruct (IH (Nat.pred lo) hi eq_refl) as (w & Ew & Hlo & Hhi & Hall & Hlast).
    exists (String ch w). simpl in *. rewrite Ew, Hch, Hall, Hlast, Hp.
    repeat split; lia.
Qed.

Lemma matches_wordb_inv icase c c' :
  matches icase WordB c c' -> c' = c /\ at_boundary (fst c) (snd c) = true.
Proof.
  intros Hm. inversion Hm; subst; simpl in *; try discriminate.
  split; [reflexivity | assumption].
Qed.

Lemma uid_re_inv p s c' :
  matches false uid_re (p, s) c' ->
  exists w,
    s = w ++ snd c'
    /\ (String.length w = 8 \/ String.length w = 9)%nat
    /\ str_all isdigit w = true
    /\ at_boundary p s = true
    /\ at_boundary (str_last p w) (snd c') = true.
Proof.
  unfold uid_re. intros Hm.
  apply matches_seq_inv in Hm. destruct Hm as [c1 [Hb1 Hm]].
  apply matches_seq_inv in Hm. destruct Hm as [c2 [Hrun Hb2]].
  apply matches_wordb_inv in Hb1. destruct Hb1 as [-> Hb1].
  apply matches_wordb_inv in Hb2. destruct Hb2 as [-> Hb2].
  destruct (matches_rep_bounded_inv false Digit eq_refl _ _ _ Hrun 8 9 eq_refl)
    as (w & Ew & Hlo & Hhi & Hall & Hlast).
  simpl in *. exists w. rewrite <- Hlast.
  repeat split; try assumption. lia.
Qed.

(** Every digit is a character of a word, as in [re]. *)
Hypothesis digit_is_word : forall c, isdigit c = true -> isword c = true.

Lemma digits_last p w :
  w <> EmptyString -> str_all isdigit w = true -> opt_is isword (str_last p w) = true.
Proof.
  revert p. induction w as [|x w IH]; intros p Hne Hall; [congruence |].
  simpl in *. apply andb_prop in Hall. destruct Hall as [Hx Hall].
  destruct w as [|y w].
  - simpl. now apply digit_is_word.
  - apply IH; [discriminate | exact Hall].
Qed.

Lemma digits_head w s :
  w <> EmptyString -> str_all isdigit w = true -> opt_is isword (str_head (w ++ s)) = true.
Proof.
  intros Hne Hall. destruct w as [|x w]; [congruence |].
  simpl in *. apply andb_prop in Hall. destruct Hall as [Hx _].
  now apply digit_is_word.
Qed.

(** What the number rule leaves in the record. *)
Lemma uid_found_cases text :
  found (re_search false uid_re text) = NOT_FOUND
  \/ exists pre w post,
       text = pre ++ w ++ post
       /\ found (re_search false uid_re text) = w
       /\ (String.length w = 8 \/ String.length w = 9)%nat
       /\ str_all isdigit w = true
       /\ opt_is isword (str_last None pre) = false
       /\ opt_is isword (str_head post) = false.
Proof.
  destruct (re_search false uid_re text) as [[i w]|] eqn:E; [right | left; reflexivity].
  apply re_search_some in E. destruct E as (pre & _ & Hleft & _).
  destruct Hleft as [(post & p' & Htext & Hm) _].
  apply uid_re_inv in Hm. destruct Hm as (w' & Ew & Hlen & Hall & Hb1 & Hb2).
  apply (str_app_inv_tail w w' post) in Ew. subst w'.
  assert (Hne : w <> EmptyString) by (apply str_nonempty_length; lia).
  exists pre, w, post. repeat split; try assumption.
  - unfold at_boundary in Hb1. rewrite (digits_head w post Hne Hall) in Hb1.
    destruct (opt_is isword (str_last None pre)); [discriminate | reflexivity].
  - unfold at_boundary in Hb2. cbn [snd] in Hb2.
    rewrite (digits_last (str_last None pre) w Hne Hall) in Hb2.
    destruct (opt_is isword (str_head post)); [discriminate | reflexivity].
Qed.
End UidRule.

Lemma ascii_digit_is_word (c : ascii) :
  isdigit (PyLib := ascii_lib) c = true -> isword (PyLib := ascii_lib) c = true.
Proof. destruct c as [[] [] [] [] [] [] [] []]; vm_compute; congruence. Qed.

(** X2. The number is "Not Found" or a run of exactly eight or nine
    digits of the text that stands alone: the character before it and
    the character after it, if any, are no characters of a word, hence
    no digits, letters or underscores.  A run of ten digits or more, or
    a run glued to a letter, gives no number. *)
Theorem uid_is_lone_run `{PyLib}
    (digit_is_word : forall c, isdigit c = true -> isword c = true) (text : string) :
  exists d,
    extract_using_regex text = ok d
    /\ (d !! "uid_no" = Some NOT_FOUND
        \/ exists pre w post,
             text = pre ++ w ++ post
             /\ d !! "uid_no" = Some w
             /\ (String.length w = 8 \/ String.length w = 9)%nat
             /\ str_all isdigit w = true
             /\ opt_is isword (str_last None pre) = false
             /\ opt_is isword (str_head post) = false).
Proof.
  exists (fallback_record text).
  split; [apply extract_using_regex_eq |].
  rewrite fallback_lookup_uid.
  destruct (uid_found_cases digit_is_word text)
    as [-> | (pre & w & post & Ht & Hw & Hlen & Hall & Hb & Ha)].
  - left. reflexivity.
  - right. exists pre, w, post. rewrite Hw. repeat split; assumption.
Qed.

(** In a text with a number of fifteen digits, one glued to a letter
    and one of nine digits that stands alone, the last is the number. *)
Lemma uid_is_lone_run_witness :
  exists d,
    extract_using_regex (H := ascii_lib) uid_text = ok d
    /\ d !! "uid_no" = Some "123456789".
Proof.
  destruct (uid_is_lone_run (H := ascii_lib) ascii_digit_is_word uid_text)
    as (d & E & _).
  exists d. split; [exact E |].
  rewrite extract_using_regex_eq in E. injection E as <-. reflexivity.
Defined.

(** ** The two dates, the sponsor and the characters of the name *)

Section MoreFallback.
Context `{PyLib}.




(** Between "MACKSOFY" and "SERVICES CO." the sponsor pattern reads
    no line feed. *)
Lemma sponsor_re_inv_line p s c' :
  matches false sponsor_re (p, s) c' ->
  exists mid,
    s = ("MACKSOFY" ++ mid ++ "SERVICES CO.") ++ snd c'
    /\ str_all not_newline mid = true.
Proof.
  unfold sponsor_re. intros Hm.
  apply matches_seq_inv in Hm. destruct Hm as [[p1 s1] [Hm1 Hm]].
  apply matches_seq_inv in Hm. destruct Hm as [[p2 s2] [Hm2 Hm3]].
  apply matches_str_inv in Hm1; [| discriminate].
  destruct (matches_rep_atom_inv false Dot eq_refl _ _ _ Hm2 0 eq_refl)
    as (mid & Hmid & _ & Hall).
  apply matches_str_inv in Hm3; [| discriminate].
  simpl in Hm1, Hmid, Hm3. subst s s1 s2.
  exists mid. split; [now rewrite !str_app_assoc | exact Hall].
Qed.

Lemma str_all_impl (f g : ascii -> bool) w :
  (forall c, f c = true -> g c = true) -> str_all f w = true -> str_all g w = true.
Proof.
  intros Hfg. induction w as [|x w IH]; simpl; [reflexivity |].
  intros Hall. apply andb_prop in Hall. destruct Hall as [Hx Hall].
  now rewrite (Hfg x Hx), IH.
Qed.

Lemma name_group_chars c c' :
  matches false (Grp (Seq (Plus (Range "A" "Z")) (Plus Space))) c c' ->
  exists w, snd c = w ++ snd c' /\ str_all upper_or_space w = true.
Proof.
  intros Hm. apply name_group_inv in Hm. destruct Hm as (u & b & E & [_ Hu] & [_ Hb]).
  exists (u ++ b). split; [now rewrite str_app_assoc |].
  rewrite str_all_app.
  rewrite (str_all_impl is_upper upper_or_space u), (str_all_impl isspace upper_or_space b);
    try assumption; try reflexivity;
    intros c0 Hc; unfold upper_or_space; rewrite Hc; auto using orb_true_r.
Qed.

Lemma name_rounds_chars r c c' :
  matches false r c c' ->
  forall lo, r = Rep (Grp (Seq (Plus (Range "A" "Z")) (Plus Space))) lo None ->
  exists w, snd c = w ++ snd c' /\ str_all upper_or_space w = true.
Proof.
  intros Hm.
  induction Hm as [r c p s T|p s B|x y c1 c2 c3 _ _ _ _
                  |x y c1 c2 _ _|x y c1 c2 _ _|x hi' c
                  |x lo' hi' c1 c2 c3 Hopen Hbody _ Hlt Hrest IH|x c1 c2 _ _];
    intros lo E; try discriminate.
  - subst r. simpl in T. discriminate.
  - exists EmptyString. split; reflexivity.
  - injection E as -> -> ->.
    apply name_group_chars in Hbody. destruct Hbody as (w1 & E1 & H1).
    destruct (IH (Nat.pred lo) eq_refl) as (w2 & E2 & H2).
    exists (w1 ++ w2). rewrite E1, E2, str_app_assoc, str_all_app, H1, H2.
    split; reflexivity.
Qed.

(** A match of the name pattern has capital letters and blanks only. *)
Lemma name_re_chars p s c' :
  matches false name_re (p, s) c' ->
  exists w, s = w ++ snd c' /\ str_all upper_or_space w = true.
Proof.
  unfold name_re. intros Hm.
  apply matches_seq_inv in Hm. destruct Hm as [c1 [Hrounds Hlast]].
  destruct (name_rounds_chars _ _ _ Hrounds 2 eq_refl) as (w1 & E1 & H1).
  apply plus_upper_inv in Hlast. destruct Hlast as (w2 & E2 & [_ H2]).
  simpl in E1. exists (w1 ++ w2).
  rewrite E1, E2, str_app_assoc, str_all_app, H1.
  rewrite (str_all_impl is_upper upper_or_space w2); try assumption; [split; reflexivity |].
  intros c0 Hc. unfold upper_or_space. now rewrite Hc.
Qed.
End MoreFallback.


(** X4. The sponsor, when found, runs on one line: between "MACKSOFY"
    and "SERVICES CO." it holds no line feed, so a company name broken
    over two lines is not found. *)
Theorem sponsor_on_one_line `{PyLib} (text : string) :
  exists d,
    extract_using_regex text = ok d
    /\ (d !! "sponsor" = Some NOT_FOUND
        \/ exists mid,
             d !! "sponsor" = Some ("MACKSOFY" ++ mid ++ "SERVICES CO.")
             /\ str_all not_newline ("MACKSOFY" ++ mid ++ "SERVICES CO.") = true).
Proof.
  exists (fallback_record text).
  split; [apply extract_using_regex_eq |].
  rewrite fallback_lookup_sponsor.
  destruct (re_search false sponsor_re text) as [[i w]|] eqn:E; [right | left; reflexivity].
  apply re_search_some in E.
  destruct E as (pre & _ & ((post & p' & Htext & Hm) & _) & _).
  apply sponsor_re_inv_line in Hm. destruct Hm as (mid & Hmid & Hall).
  apply (str_app_inv_tail w ("MACKSOFY" ++ mid ++ "SERVICES CO.") post) in Hmid.
  subst w. exists mid. split; [reflexivity |].
  change ("MACKSOFY" ++ mid ++ "SERVICES CO.")
    with ("MACKSOFY" ++ (mid ++ "SERVICES CO.")).
  rewrite !str_all_app, Hall. reflexivity.
Qed.

(** X5. The name, when found, is made of capital letters from A to Z
    and of blanks only: a name with a lower-case letter, a hyphen or an
    apostrophe is cut there or not found. *)
Theorem name_capitals_and_blanks `{PyLib} (text : string) :
  exists d,
    extract_using_regex text = ok d
    /\ (d !! "name" = Some NOT_FOUND
        \/ exists w, d !! "name" = Some w /\ str_all upper_or_space w = true).
Proof.
  exists (fallback_record text).
  split; [apply extract_using_regex_eq |].
  rewrite fallback_lookup_name.
  destruct (re_search false name_re text) as [[i w]|] eqn:E; [right | left; reflexivity].
  apply re_search_some in E.
  destruct E as (pre & _ & ((post & p' & Htext & Hm) & _) & _).
  apply name_re_chars in Hm. destruct Hm as (w' & Ew & Hall).
  apply (str_app_inv_tail w w' post) in Ew. subst w'.
  exists w. split; [reflexivity | exact Hall].
Qed.

(** ** The post-processing, case by case *)

Section PostProcessCases.
Context `{PyLib}.

Lemma post_process_missing m :
  m !! "profession" = None \/ m !! "sponsor" = None ->
  post_process (JObject m) = ok (JObject m).
Proof.
  intros Hmiss. unfold post_process. simpl.
  destruct (m !! "profession") as [a|] eqn:Ep.
  - destruct Hmiss as [Hm | Hm]; [discriminate |]. rewrite Hm.
    rewrite bool_decide_eq_true_2 by eauto.
    rewrite bool_decide_eq_false_2 by (intros [x Hx]; discriminate).
    reflexivity.
  - rewrite bool_decide_eq_false_2 by (intros [x Hx]; discriminate). reflexivity.
Qed.

Lemma post_process_both m a b :
  m !! "profession" = Some a -> m !! "sponsor" = Some b ->
  post_process (JObject m) =
  (let! prof_value := py_upper a in
   let! sponsor_value := py_upper b in
   let! extracted_info :=
     if is_company prof_value
     then assign_pair (JObject m) sponsor_value prof_value
     else ok (JObject m) in
   let! extracted_info :=
     if is_partner (str_strip sponsor_value)
     then assign_pair extracted_info sponsor_value prof_value
     else ok extracted_info in
   ok extracted_info)%result.
Proof.
  intros Ea Eb. unfold post_process. simpl. rewrite Ea, Eb.
  rewrite !bool_decide_eq_true_2 by eauto. simpl.
  destruct (py_upper a); reflexivity.
Qed.

(** A value that is no string has no [upper]. *)
Lemma py_upper_not_string v : is_string v = false -> py_upper v = raise AttributeError.
Proof. destruct v; simpl; intros; try reflexivity; discriminate. Qed.

Lemma post_process_not_strings m a b :
  m !! "profession" = Some a -> m !! "sponsor" = Some b ->
  is_string a = false \/ is_string b = false ->
  post_process (JObject m) = raise AttributeError.
Proof.
  intros Ea Eb Hns. rewrite (post_process_both m a b Ea Eb).
  destruct a; simpl in *; try reflexivity;
    destruct Hns as [Hns | Hns]; try discriminate;
    rewrite (py_upper_not_string b Hns); reflexivity.
Qed.

(** When the pass returns, the keys other than the two keep their
    values. *)
Lemma post_process_frame m v :
  post_process (JObject m) = ok v ->
  exists m',
    v = JObject m'
    /\ forall k, k <> "profession" -> k <> "sponsor" -> m' !! k = m !! k.
Proof.
  destruct (m !! "profession") as [a|] eqn:Ea;
    [destruct (m !! "sponsor") as [b|] eqn:Eb |].
  - rewrite (post_process_both m a b Ea Eb).
    destruct (py_upper a) as [e|pu]; simpl; [discriminate |].
    destruct (py_upper b) as [e|su]; simpl; [discriminate |].
    destruct (is_company pu), (is_partner (str_strip su)); simpl;
      intros E; injection E as <-; eexists; (split; [reflexivity |]);
      intros k H1 H2; rewrite ?lookup_insert_ne by congruence; reflexivity.
  - rewrite post_process_missing by tauto.
    intros E. injection E as <-. exists m. split; [reflexivity | reflexivity].
  - rewrite post_process_missing by tauto.
    intros E. injection E as <-. exists m. split; [reflexivity | reflexivity].
Qed.

(** On a value that is no object the pass raises [TypeError] or
    returns the value as it is. *)
Lemma post_process_non_object v :
  is_object v = false ->
  post_process v = raise TypeError \/ post_process v = ok v.
Proof.
  intros Hv. unfold post_process.
  destruct v as [| b | lit | s | xs | m]; simpl in *; try discriminate;
    try (left; reflexivity).
  - destruct (str_contains "profession" s); simpl; [| right; reflexivity].
    destruct (str_contains "sponsor" s); simpl; [left | right]; reflexivity.
  - match goal with |- context [existsb ?f xs] => destruct (existsb f xs) end;
      simpl; [| right; reflexivity].
    match goal with |- context [existsb ?f xs] => destruct (existsb f xs) end;
      simpl; [left | right]; reflexivity.
Qed.

Lemma py_get_default_non_object v k :
  is_object v = false -> py_get_default v k = raise AttributeError.
Proof. destruct v; simpl; intros; try reflexivity; discriminate. Qed.
End PostProcessCases.

(** X6. The pass leaves a parsed record as it is when [profession] or
    [sponsor] is missing, whatever the other values are, and when both
    are strings on which neither rule applies. *)
Theorem post_process_leaves_unchanged `{PyLib} (m : gmap string json) :
  (m !! "profession" = None \/ m !! "sponsor" = None ->
   post_process (JObject m) = ok (JObject m))
  /\ (forall p s,
        m !! "profession" = Some (JString p) ->
        m !! "sponsor" = Some (JString s) ->
        is_company (str_upper p) = false ->
        is_partner (str_strip (str_upper s)) = false ->
        post_process (JObject m) = ok (JObject m)).
Proof.
  split; [apply post_process_missing |].
  intros p s Ep Es Hc Hp.
  rewrite (post_process_both m _ _ Ep Es). simpl. rewrite Hc, Hp. reflexivity.
Qed.

(** An accountant with a trading company as sponsor: nothing changes. *)
Lemma post_process_leaves_unchanged_witness :
  post_process (H := ascii_lib) (JObject record_accountant) = ok (JObject record_accountant).
Proof.
  apply (proj2 (post_process_leaves_unchanged (H := ascii_lib) record_accountant)
           "Accountant" "ABC Trading LLC"); vm_compute; reflexivity.
Defined.

(** X7. When the pass returns on a parsed record, it returns a record
    in which every key other than [profession] and [sponsor] has the
    value it had: the pass never touches the name, the numbers, the
    place or the dates. *)
Theorem post_process_touches_two_keys `{PyLib} (m : gmap string json) (v : json) :
  post_process (JObject m) = ok v ->
  exists m',
    v = JObject m'
    /\ forall k, k <> "profession" -> k <> "sponsor" -> m' !! k = m !! k.
Proof. apply post_process_frame. Qed.

(** The name of the accountant stays. *)
Lemma post_process_touches_two_keys_witness :
  exists m',
    post_process (H := ascii_lib) (JObject record_accountant) = ok (JObject m')
    /\ m' !! "name" = Some (JString "JOHN ADAM SMITH").
Proof.
  assert (E : post_process (H := ascii_lib) (JObject record_accountant)
              = ok (JObject record_accountant)) by (vm_compute; reflexivity).
  destruct (post_process_touches_two_keys (H := ascii_lib) record_accountant _ E)
    as (m' & Ev & Hk).
  exists m'. split.
  - rewrite E. f_equal. exact Ev.
  - rewrite (Hk "name") by discriminate. vm_compute. reflexivity.
Defined.

(** X8. An answer of the model that is valid JSON but no object (null,
    a number, a string, an array) is not sent to the fallback:
    [process_and_query] either raises, a [TypeError] wrapped in "Error
    in LLM processing: ", or returns the value as it is, and then every
    read of a field with [get] raises [AttributeError]. *)
Theorem non_object_answer `{PyLib} (svc : Services) (text : string) (w : World)
    (raw : string) (v : json) :
  chain_run svc text = ok raw ->
  json_loads raw = Some v ->
  is_object v = false ->
  snd (process_and_query svc text w)
  = raise (Exception_ "Error in LLM processing: " TypeError)
  \/ (snd (process_and_query svc text w) = ok v
      /\ forall k, py_get_default v k = raise AttributeError).
Proof.
  intros Hraw Hparse Hv.
  rewrite (process_and_query_answer svc text w raw Hraw), Hparse. cbn [snd].
  destruct (post_process_non_object v Hv) as [-> | ->]; [left | right].
  - reflexivity.
  - split; [reflexivity |]. intros k. now apply py_get_default_non_object.
Qed.

(** An array is returned as it is, and cannot be read. *)
Lemma non_object_answer_witness :
  snd (process_and_query (H := ascii_lib) (svc_answering (ok answer_array)) "JOHN" w0)
  = ok (JArray [JString "JOHN ADAM SMITH"; JString "Dubai"])
  /\ py_get_default (JArray [JString "JOHN ADAM SMITH"; JString "Dubai"]) "name"
     = raise AttributeError.
Proof.
  destruct (non_object_answer (H := ascii_lib) (svc_answering (ok answer_array))
              "JOHN" w0 answer_array (JArray [JString "JOHN ADAM SMITH"; JString "Dubai"])
              eq_refl ltac:(vm_compute; reflexivity) eq_refl) as [E | [E Hget]].
  - exfalso. vm_compute in E. discriminate.
  - split; [exact E | apply Hget].
Defined.

(** X9. When the parsed record has both [profession] and [sponsor] and
    one of the two values is no string ([null], a number, a list), the
    pass raises [AttributeError] and [process_and_query] raises it
    wrapped in "Error in LLM processing: ": no record is returned and
    the fallback is not tried. *)
Theorem non_string_field_raises `{PyLib} (svc : Services) (text : string) (w : World)
    (raw : string) (m : gmap string json) (a b : json) :
  chain_run svc text = ok raw ->
  json_loads raw = Some (JObject m) ->
  m !! "profession" = Some a ->
  m !! "sponsor" = Some b ->
  is_string a = false \/ is_string b = false ->
  snd (process_and_query svc text w)
  = raise (Exception_ "Error in LLM processing: " AttributeError).
Proof.
  intros Hraw Hparse Ea Eb Hns.
  rewrite (process_and_query_answer svc text w raw Hraw), Hparse. cbn [snd].
  now rewrite (post_process_not_strings m a b Ea Eb Hns).
Qed.

(** A sponsor that is [null]. *)
Lemma non_string_field_raises_witness :
  snd (process_and_query (H := ascii_lib) (svc_answering (ok answer_null_sponsor))
         "JOHN" w0)
  = raise (Exception_ "Error in LLM processing: " AttributeError).
Proof.
  apply (non_string_field_raises (H := ascii_lib)
           (svc_answering (ok answer_null_sponsor)) "JOHN" w0 answer_null_sponsor
           (<["profession" := JString "Partner"]> {["sponsor" := JNull]})
           (JString "Partner") JNull);
    try (vm_compute; reflexivity).
  right. reflexivity.
Defined.

(** X10. Whatever the model answers, [process_and_query] calls it
    exactly once and leaves the document store as it is; and every
    exception it raises is wrapped in "Error in LLM processing: ". *)
Theorem process_and_query_effects `{PyLib} (svc : Services) (text : string) (w : World) :
  fst (process_and_query svc text w) = log (EvModel text) w
  /\ forall e,
       snd (process_and_query svc text w) = raise e ->
       exists cause, e = Exception_ "Error in LLM processing: " cause.
Proof.
  destruct (chain_run svc text) as [e0|raw] eqn:E.
  - rewrite (process_and_query_model_error svc text w e0 E). split; [reflexivity |].
    intros e He. injection He as <-. eauto.
  - rewrite (process_and_query_answer svc text w raw E). split; [reflexivity |].
    cbn [snd]. intros e He.
    destruct (json_loads raw) as [v|]; [| discriminate].
    destruct (post_process v) as [e1|v']; [| discriminate].
    injection He as <-. eauto.
Qed.

(** A model that is down: one call, the store untouched, the error
    wrapped. *)
Lemma process_and_query_effects_witness :
  fst (process_and_query (H := ascii_lib) (svc_answering (raise (ServiceError "quota")))
         "JOHN" w_busy)
  = {| s3 := s3 w_busy; trace := [EvModel "JOHN"] |}
  /\ exists cause,
       Exception_ "Error in LLM processing: " (ServiceError "quota")
       = Exception_ "Error in LLM processing: " cause.
Proof.
  destruct (process_and_query_effects (H := ascii_lib)
              (svc_answering (raise (ServiceError "quota"))) "JOHN" w_busy) as [Hw He].
  split; [exact Hw |].
  apply He. reflexivity.
Defined.

(** ** The coordinator, step by step *)

Section Coordinator.
Context `{PyLib}.
Variable svc : Services.

Lemma process_and_query_world text w :
  fst (process_and_query svc text w) = log (EvModel text) w.
Proof.
  destruct (chain_run svc text) as [e|raw] eqn:E.
  - now rewrite (process_and_query_model_error svc text w e E).
  - now rewrite (process_and_query_answer svc text w raw E).
Qed.

(** The run of [extract_text_from_image] after a successful upload,
    with the world that [process_and_query] leaves written out. *)
Lemma extract_run_world image_path bucket_name w bytes :
  local_file svc image_path = Some bytes ->
  let key := "emirates_ids/" ++ basename image_path in
  let stored := <[(bucket_name, key) := bytes]> (s3 w) in
  let called :=
    ((trace w ++ [EvUpload bucket_name key]) ++ [EvDetect bucket_name key])%list in
  extract_text_from_image svc image_path bucket_name w =
  match ocr svc bytes with
  | inl e =>
      ({| s3 := stored; trace := called |},
       raise (Exception_ "Error processing Emirates ID: " e))
  | inr response =>
      match snd (process_and_query svc (line_text response)
                   {| s3 := stored; trace := called |}) with
      | inl e =>
          ({| s3 := stored; trace := (called ++ [EvModel (line_text response)])%list |},
           raise (Exception_ "Error processing Emirates ID: " e))
      | inr v =>
          match delete_outcome svc bucket_name key with
          | inr _ =>
              ({| s3 := delete (bucket_name, key) stored;
                  trace := ((called ++ [EvModel (line_text response)])
                            ++ [EvDelete bucket_name key])%list |},
               ok v)
          | inl e =>
              ({| s3 := stored;
                  trace := ((called ++ [EvModel (line_text response)])
                            ++ [EvDelete bucket_name key])%list |},
               raise (Exception_ "Error processing Emirates ID: " e))
          end
      end
  end.
Proof.
  intros Hfile. cbv zeta.
  rewrite (extract_run svc image_path bucket_name w bytes Hfile). cbv zeta.
  unfold log. cbn [s3 trace].
  destruct (ocr svc bytes) as [e|response]; [reflexivity |].
  fold (line_text response).
  match goal with |- context [process_and_query svc ?t ?w1] =>
    pose proof (process_and_query_world t w1) as Hw;
    destruct (process_and_query svc t w1) as [w3 [e|v]] end;
    cbn [fst snd] in *; subst w3; [reflexivity |].
  destruct (delete_outcome svc _ _) as [e|u]; reflexivity.
Qed.
(** The run when the upload fails. *)
Lemma extract_run_no_file image_path bucket_name w :
  local_file svc image_path = None ->
  exists e,
    extract_text_from_image svc image_path bucket_name w
    = (w, raise (Exception_ "Error processing Emirates ID: "
                   (Exception_ "Error uploading to S3: " e))).
Proof.
  intros Hfile.
  unfold extract_text_from_image, upload_to_s3, try_except, mbind, s3_upload_file, mraise.
  rewrite Hfile. eexists. reflexivity.
Qed.
End Coordinator.

(** X11. When [extract_text_from_image] returns a record, the store is
    the store it started from without the object under the key of the
    invocation: the uploaded image is gone, and so is an object that
    was stored under this key before the call. *)
Theorem extract_success_store `{PyLib} (svc : Services) (image_path bucket_name : string)
    (w : World) (v : json) :
  snd (extract_text_from_image svc image_path bucket_name w) = ok v ->
  s3 (fst (extract_text_from_image svc image_path bucket_name w))
  = delete (s3_key image_path bucket_name) (s3 w).
Proof.
  destruct (local_file svc image_path) as [bytes|] eqn:Hfile.
  - pose proof (extract_run_world svc image_path bucket_name w bytes Hfile) as Hrun.
    cbv zeta in Hrun. rewrite Hrun.
    destruct (ocr svc bytes) as [e|response]; [discriminate |].
    destruct (snd (process_and_query svc _ _)) as [e|v']; [discriminate |].
    destruct (delete_outcome svc _ _) as [e|u]; [discriminate |].
    intros _. cbn [fst s3]. unfold s3_key. apply delete_insert_eq.
  - unfold extract_text_from_image, upload_to_s3, try_except, mbind,
      s3_upload_file, mraise.
    rewrite Hfile. discriminate.
Qed.

(** An older object under the key of the card is gone after the run. *)
Lemma extract_success_store_witness :
  s3 w_busy !! card_key = Some "OLD"
  /\ s3 (fst (extract_text_from_image (H := ascii_lib) (svc_answering (ok answer_prose))
                card_path "id-bucket" w_busy))
     = delete card_key (s3 w_busy).
Proof.
  split; [vm_compute; reflexivity |].
  destruct (extract_text_from_image (H := ascii_lib) (svc_answering (ok answer_prose))
              card_path "id-bucket" w_busy) as [w' [e|v]] eqn:E.
  - exfalso. vm_compute in E. discriminate.
  - change card_key with (s3_key card_path "id-bucket").
    rewrite <- (extract_success_store (H := ascii_lib) (svc_answering (ok answer_prose))
                  card_path "id-bucket" w_busy v); rewrite E; reflexivity.
Defined.

(** X12. Whatever happens, [extract_text_from_image] leaves every
    object stored under another key as it is. *)
Theorem extract_other_keys `{PyLib} (svc : Services) (image_path bucket_name : string)
    (w : World) (k : string * string) :
  k <> s3_key image_path bucket_name ->
  s3 (fst (extract_text_from_image svc image_path bucket_name w)) !! k = s3 w !! k.
Proof.
  intros Hk. unfold s3_key in Hk.
  destruct (local_file svc image_path) as [bytes|] eqn:Hfile.
  - pose proof (extract_run_world svc image_path bucket_name w bytes Hfile) as Hrun.
    cbv zeta in Hrun. rewrite Hrun.
    destruct (ocr svc bytes) as [e|response].
    + cbn [fst s3]. now rewrite lookup_insert_ne by congruence.
    + destruct (snd (process_and_query svc _ _)) as [e|v']; cbn [fst s3].
      * now rewrite lookup_insert_ne by congruence.
      * destruct (delete_outcome svc _ _) as [e|u]; cbn [fst s3].
        -- now rewrite lookup_insert_ne by congruence.
        -- rewrite lookup_delete_ne by congruence.
           now rewrite lookup_insert_ne by congruence.
  - now rewrite (extract_upload_fails svc image_path bucket_name w Hfile).
Qed.

(** The other image of the store stays. *)
Lemma extract_other_keys_witness :
  s3 (fst (extract_text_from_image (H := ascii_lib) svc_ocr_down
             card_path "id-bucket" w_busy))
    !! ("id-bucket", "emirates_ids/other.png") = Some "OTHER".
Proof.
  rewrite (extract_other_keys (H := ascii_lib) svc_ocr_down card_path "id-bucket" w_busy
             ("id-bucket", "emirates_ids/other.png")).
  - vm_compute. reflexivity.
  - vm_compute. discriminate.
Defined.

(** X13. When the image cannot be uploaded, nothing else happens: the
    store and the trace are as before, neither the OCR service nor the
    model is called, and the caller gets the error of the upload wrapped
    twice, in "Error uploading to S3: " and then in "Error processing
    Emirates ID: ". *)
Theorem extract_upload_failure `{PyLib} (svc : Services) (image_path bucket_name : string)
    (w : World) :
  local_file svc image_path = None ->
  exists e,
    extract_text_from_image svc image_path bucket_name w
    = (w, raise (Exception_ "Error processing Emirates ID: "
                   (Exception_ "Error uploading to S3: " e))).
Proof. apply extract_run_no_file. Qed.

(** A path that is not there. *)
Lemma extract_upload_failure_witness :
  exists e,
    extract_text_from_image (H := ascii_lib) (svc_answering (ok answer_prose))
      "/tmp/missing.png" "id-bucket" w_busy
    = (w_busy, raise (Exception_ "Error processing Emirates ID: "
                        (Exception_ "Error uploading to S3: " e))).
Proof.
  apply (extract_upload_failure (H := ascii_lib)). reflexivity.
Defined.

(** X14. The calls of one invocation come in one order, each once at
    most: upload, OCR, model, deletion.  The model is called only after
    the OCR service has answered, with the texts of the blocks of type
    LINE, in their order, joined by one blank; the deletion is called
    only after [process_and_query] has returned a record.  The record
    is returned when the deletion succeeds; when the deletion raises,
    its error is raised, wrapped in "Error processing Emirates ID: ",
    and the record is lost. *)
Theorem extract_protocol `{PyLib} (svc : Services) (image_path bucket_name : string)
    (w : World) :
  let key := "emirates_ids/" ++ basename image_path in
  let r := extract_text_from_image svc image_path bucket_name w in
  (local_file svc image_path = None
   /\ trace (fst r) = trace w
   /\ exists e, snd r = raise e)
  \/ exists bytes,
       local_file svc image_path = Some bytes
       /\ ((exists e,
              ocr svc bytes = raise e
              /\ trace (fst r)
                 = (trace w ++ [EvUpload bucket_name key; EvDetect bucket_name key])%list
              /\ snd r = raise (Exception_ "Error processing Emirates ID: " e))
           \/ exists response,
                ocr svc bytes = ok response
                /\ ((trace (fst r)
                     = (trace w ++ [EvUpload bucket_name key; EvDetect bucket_name key;
                                    EvModel (line_text response)])%list
                     /\ exists e w1,
                          snd (process_and_query svc (line_text response) w1) = raise e
                          /\ snd r = raise (Exception_ "Error processing Emirates ID: " e))
                    \/ (trace (fst r)
                        = (trace w ++ [EvUpload bucket_name key;
                                       EvDetect bucket_name key;
                                       EvModel (line_text response);
                                       EvDelete bucket_name key])%list
                        /\ exists v w1,
                             snd (process_and_query svc (line_text response) w1) = ok v
                             /\ ((delete_outcome svc bucket_name key = ok tt
                                  /\ snd r = ok v)
                                 \/ exists e,
                                      delete_outcome svc bucket_name key = raise e
                                      /\ snd r
                                         = raise (Exception_
                                                    "Error processing Emirates ID: " e))))).
Proof.
  cbv zeta.
  destruct (local_file svc image_path) as [bytes|] eqn:Hfile.
  - right. exists bytes. split; [reflexivity |].
    pose proof (extract_run_world svc image_path bucket_name w bytes Hfile) as Hrun.
    cbv zeta in Hrun. rewrite Hrun.
    destruct (ocr svc bytes) as [e|response]; [left | right].
    + exists e. cbn [fst snd trace]. split; [reflexivity |].
      split; [now rewrite <- !app_assoc | reflexivity].
    + exists response. split; [reflexivity |].
      destruct (snd (process_and_query svc (line_text response) _)) as [e|v] eqn:Epq;
        [left | right]; cbn [fst snd trace].
      * split; [now rewrite <- !app_assoc |].
        eexists e, _. split; [exact Epq | reflexivity].
      * destruct (delete_outcome svc _ _) as [e|[]]; cbn [fst snd trace].
        -- split; [now rewrite <- !app_assoc |].
           eexists v, _. split; [exact Epq |]. right. exists e. split; reflexivity.
        -- split; [now rewrite <- !app_assoc |].
           eexists v, _. split; [exact Epq |]. left. split; reflexivity.
  - left. destruct (extract_run_no_file svc image_path bucket_name w Hfile) as [e He].
    rewrite He. split; [reflexivity |]. split; [reflexivity | eauto].
Qed.

(** ** [display_results] *)

Section DisplayTheory.
Variable py_str : json -> string.

Lemma display_row_ext m1 m2 field label html :
  default (JString NOT_FOUND) (m1 !! field) = default (JString NOT_FOUND) (m2 !! field) ->
  display_row py_str (JObject m1) field label html
  = display_row py_str (JObject m2) field label html.
Proof. intros E. unfold display_row. simpl. now rewrite E. Qed.

Lemma display_rows_ext m1 m2 :
  forall fs html,
    (forall field, In field (fst <$> fs) ->
       default (JString NOT_FOUND) (m1 !! field)
       = default (JString NOT_FOUND) (m2 !! field)) ->
    display_rows py_str (JObject m1) fs html = display_rows py_str (JObject m2) fs html.
Proof.
  induction fs as [|[field label] fs IH]; intros html Hfs; [reflexivity |].
  cbn [display_rows].
  rewrite (display_row_ext m1 m2 field label html) by (apply Hfs; left; reflexivity).
  destruct (display_row py_str (JObject m2) field label html) as [e|html']; [reflexivity |].
  cbn [rbind]. apply IH. intros f Hf. apply Hfs. right. exact Hf.
Qed.

Lemma display_rows_object m :
  forall fs html, exists html', display_rows py_str (JObject m) fs html = ok html'.
Proof.
  induction fs as [|[field label] fs IH]; intros html; simpl; [eauto |].
  apply IH.
Qed.

Lemma display_results_non_object v :
  is_object v = false -> display_results py_str v = raise AttributeError.
Proof.
  intros Hv. unfold display_results, fields. simpl.
  unfold display_row. rewrite (py_get_default_non_object v "name" Hv). reflexivity.
Qed.
End DisplayTheory.

(** X15. [display_results] reads the eight fields of the schema and
    nothing else, each with the default "Not Found": two records that
    agree on these eight reads are displayed the same.  So a missing
    field is displayed as a field bound to "Not Found", and a key
    outside the schema is never displayed. *)
Theorem display_results_reads_schema (py_str : json -> string)
    (m1 m2 : gmap string json) :
  (forall k, In k schema_keys ->
     default (JString NOT_FOUND) (m1 !! k) = default (JString NOT_FOUND) (m2 !! k)) ->
  display_results py_str (JObject m1) = display_results py_str (JObject m2).
Proof.
  intros Hagree. unfold display_results.
  rewrite (display_rows_ext py_str m1 m2 fields html_head); [reflexivity |].
  exact Hagree.
Qed.

(** A record with the name only is displayed as the record that also
    has a number "Not Found" and a nationality. *)
Lemma display_results_reads_schema_witness :
  display_results str_of_json (JObject record_name_only)
  = display_results str_of_json (JObject record_name_padded).
Proof.
  apply display_results_reads_schema.
  intros k Hk. simpl in Hk.
  destruct Hk as [<-|[<-|[<-|[<-|[<-|[<-|[<-|[<-|[]]]]]]]]]; vm_compute; reflexivity.
Defined.

(** X16. [display_results] builds its HTML for every dictionary,
    complete or not, and raises [AttributeError] on a value that is no
    dictionary, such as the array that [process_and_query] can
    return. *)
Theorem display_results_on_values (py_str : json -> string) :
  (forall m, exists html, display_results py_str (JObject m) = ok html)
  /\ (forall v, is_object v = false -> display_results py_str v = raise AttributeError).
Proof.
  split.
  - intros m. unfold display_results.
    destruct (display_rows_object py_str m fields html_head) as [html ->].
    simpl. eauto.
  - apply display_results_non_object.
Qed.

(** The array that the model answered cannot be displayed. *)
Lemma display_results_on_values_witness :
  display_results str_of_json (JArray [JString "JOHN ADAM SMITH"; JString "Dubai"])
  = raise AttributeError.
Proof.
  apply (proj2 (display_results_on_values str_of_json)). reflexivity.
Defined.

(** ** The text sent to the model, and the whole run on the fallback path *)




(** X18. The whole run when the answer of the model does not parse:
    the image is uploaded, read by the OCR service, the model is called
    once on the text of the lines, the fallback makes of the answer a
    record with all eight keys, and the deletion of the image is called.
    When the deletion succeeds the record is returned and the image is
    gone; when the deletion raises, its error is raised, wrapped in
    "Error processing Emirates ID: ", the record is lost and the image
    stays in the store. *)
Theorem extract_on_fallback_path `{PyLib} (svc : Services)
    (image_path bucket_name : string) (w : World)
    (bytes : string) (response : list Block) (raw : string) :
  local_file svc image_path = Some bytes ->
  ocr svc bytes = ok response ->
  chain_run svc (line_text response) = ok raw ->
  json_loads raw = None ->
  exists d,
    extract_using_regex raw = ok d
    /\ complete_record (of_record d)
    /\ trace (fst (extract_text_from_image svc image_path bucket_name w))
       = (trace w ++ [EvUpload bucket_name ("emirates_ids/" ++ basename image_path);
                      EvDetect bucket_name ("emirates_ids/" ++ basename image_path);
                      EvModel (line_text response);
                      EvDelete bucket_name ("emirates_ids/" ++ basename image_path)])%list
    /\ match delete_outcome svc bucket_name ("emirates_ids/" ++ basename image_path) with
       | inr _ =>
           snd (extract_text_from_image svc image_path bucket_name w) = ok (of_record d)
           /\ s3 (fst (extract_text_from_image svc image_path bucket_name w))
              = delete (s3_key image_path bucket_name) (s3 w)
       | inl e =>
           snd (extract_text_from_image svc image_path bucket_name w)
           = raise (Exception_ "Error processing Emirates ID: " e)
           /\ s3 (fst (extract_text_from_image svc image_path bucket_name w))
              = <[s3_key image_path bucket_name := bytes]> (s3 w)
       end.
Proof.
  intros Hfile Hocr Hraw Hparse.
  exists (fallback_record raw).
  split; [apply extract_using_regex_eq |].
  split; [apply fallback_complete |].
  pose proof (extract_run_world svc image_path bucket_name w bytes Hfile) as Hrun.
  cbv zeta in Hrun. unfold ok in Hocr. rewrite Hrun, Hocr. cbv beta iota.
  rewrite (process_and_query_answer svc _ _ raw Hraw), Hparse. cbn [fst snd].
  destruct (delete_outcome svc _ _) as [e|u]; cbn [fst snd s3 trace].
  - split; [now rewrite <- !app_assoc |]. split; reflexivity.
  - split; [now rewrite <- !app_assoc |].
    split; [reflexivity | unfold s3_key; apply delete_insert_eq].
Qed.

(** The card, with a model that answers in prose: the record comes back
    and the image is gone; with a store that refuses the deletion, the
    error comes back and the image stays. *)
Lemma extract_on_fallback_path_witness :
  (exists d,
     snd (extract_text_from_image (H := ascii_lib) (svc_answering (ok answer_prose))
            card_path "id-bucket" w0) = ok (of_record d)
     /\ d !! "passport_no" = Some "Z1234567"
     /\ s3 (fst (extract_text_from_image (H := ascii_lib) (svc_answering (ok answer_prose))
                   card_path "id-bucket" w0)) !! card_key = None)
  /\ snd (extract_text_from_image (H := ascii_lib) (svc_delete_down (ok answer_prose))
            card_path "id-bucket" w0)
     = raise (Exception_ "Error processing Emirates ID: " (ServiceError "Access Denied"))
  /\ s3 (fst (extract_text_from_image (H := ascii_lib) (svc_delete_down (ok answer_prose))
                card_path "id-bucket" w0)) !! card_key = Some card_bytes.
Proof.
  split.
  - destruct (extract_on_fallback_path (H := ascii_lib) (svc_answering (ok answer_prose))
                card_path "id-bucket" w0 card_bytes card_blocks answer_prose
                eq_refl eq_refl eq_refl eq_refl)
      as (d & Ed & _ & _ & Er & Es).
    exists d. split; [exact Er |]. split.
    + rewrite extract_using_regex_eq in Ed. injection Ed as <-. reflexivity.
    + rewrite Es. apply lookup_delete_eq.
  - destruct (extract_on_fallback_path (H := ascii_lib) (svc_delete_down (ok answer_prose))
                card_path "id-bucket" w0 card_bytes card_blocks answer_prose
                eq_refl eq_refl eq_refl eq_refl)
      as (d & _ & _ & _ & Er & Es).
    split; [exact Er |]. rewrite Es. apply lookup_insert_eq.
Defined.
